(** * Wallbox charger device driver: reconciliation engine

    A shallow embedding of [drivers/wallbox/device.js] (the Homey device
    class [wallbox_charger]) together with the properties of its poll
    cycle.  The status table [lib/statuses] and the API client
    [lib/wallbox_api] are parameters: a function from status codes to
    status names, and what the two requests of a poll resolve to.

    Conventions of the embedding.
    - JavaScript numbers are idealised as rationals [Q]: there is no
      rounding, no infinity and no NaN.  Strict equality [===] on numbers
      is [Qeq_bool].  A snapshot carries all its numbers; what the source
      does with a number that is missing is kept apart, on binary64
      numbers, in [Binary64].
    - A capability holds [null] until it is first written; [null] is
      [None].  Capabilities are typed as Homey declares them (number,
      boolean or string), so a numeric capability holds [null] or a
      number.
    - The async methods are run to completion one after the other; a
      method is a function from the device to an outcome (a value or a
      thrown error), the new device and the effects it performed on the
      host, in the order they happened.
    - [this.log] is not modelled. *)

From Stdlib Require Import QArith ZArith List String Bool Lia.
From Stdlib Require Import DecimalString.
From Stdlib Require PrimFloat.
Import ListNotations.

Local Open Scope string_scope.
Local Open Scope Q_scope.

(** ** JavaScript values *)

Inductive value : Type :=
| VUndefined
| VNull
| VBool (b : bool)
| VNum (n : Q)
| VStr (s : string).

(** [Boolean(v)]: truthiness. *)
Definition Boolean (v : value) : bool :=
  match v with
  | VUndefined | VNull => false
  | VBool b => b
  | VNum n => negb (Qeq_bool n 0)
  | VStr s => negb (String.eqb s "")
  end.

(** [x < y] on numbers. *)
Definition Qltb (x y : Q) : bool := negb (Qle_bool y x).

(** The JavaScript types a capability or a snapshot field can have; each
    comes with its strict equality and its injection into [value]. *)
Class JsType (V : Type) : Type := {
  strict_eq : V -> V -> bool;
  to_value : V -> value
}.

#[export] Instance JsType_bool : JsType bool :=
  {| strict_eq := Bool.eqb; to_value := VBool |}.

#[export] Instance JsType_number : JsType Q :=
  {| strict_eq := Qeq_bool; to_value := VNum |}.

#[export] Instance JsType_string : JsType string :=
  {| strict_eq := String.eqb; to_value := VStr |}.

(** A value that may be [null]. *)
Definition nullable_eq {V} `{JsType V} (a b : option V) : bool :=
  match a, b with
  | None, None => true
  | Some x, Some y => strict_eq x y
  | _, _ => false
  end.

#[export] Instance JsType_nullable {V} `{JsType V} : JsType (option V) :=
  {| strict_eq := nullable_eq;
     to_value := fun o => match o with Some x => to_value x | None => VNull end |}.

(** [a !== b] *)
Definition strict_neq {V} `{JsType V} (a b : V) : bool := negb (strict_eq a b).

(** [ToNumber] of a numeric capability value: [null] is [+0]. *)
Definition ToNumber (v : option Q) : Q :=
  match v with Some n => n | None => 0 end.

(** [n.toString()] of an integer. *)
Definition toString (n : Z) : string := NilZero.string_of_int (Z.to_int n).

(** ** The charger snapshot and the session list

    What [getChargerStatus] and [getSessionsList] of the Wallbox API
    client resolve to.  [config_data] and [user_id] may be absent from a
    snapshot ([None]); reading a property of an absent value throws a
    TypeError.  The [data] of a session list may be absent as well, and so
    may the [energy] attribute of a session. *)

Record config : Type := {
  locked : value;
  max_available_current : Q;
  energy_price : Q;
  max_charging_current : Q
}.

Record stats : Type := {
  status_id : Z;
  charging_power : Q;
  added_energy : Q;
  config_data : option config;
  user_id : option Z;
  user_name : option string
}.

Record session : Type := {
  charger : string;
  energy : option Q
}.

Record sessions_list : Type := {
  data : option (list session)
}.

(** ** Capabilities

    The capabilities the device reads and writes, by the type Homey
    declares for them.  The constructors are the capability names. *)

Module Cap.

Inductive boolean : Type := locked | onoff.

Inductive number : Type :=
| maximum_available_current
| measure_power
| meter_power_session
| meter_session_cost
| meter_power
| measure_energy_cost
| measure_maximum_charging_current.

Inductive text : Type := status | user_id | user_name.

Definition boolean_eqb (a b : boolean) : bool :=
  match a, b with
  | locked, locked | onoff, onoff => true
  | _, _ => false
  end.

Definition number_index (a : number) : nat :=
  match a with
  | maximum_available_current => 0
  | measure_power => 1
  | meter_power_session => 2
  | meter_session_cost => 3
  | meter_power => 4
  | measure_energy_cost => 5
  | measure_maximum_charging_current => 6
  end.

Definition number_eqb (a b : number) : bool :=
  Nat.eqb (number_index a) (number_index b).

Definition text_eqb (a b : text) : bool :=
  match a, b with
  | status, status | user_id, user_id | user_name, user_name => true
  | _, _ => false
  end.

Definition boolean_name (a : boolean) : string :=
  match a with locked => "locked" | onoff => "onoff" end.

Definition number_name (a : number) : string :=
  match a with
  | maximum_available_current => "maximum_available_current"
  | measure_power => "measure_power"
  | meter_power_session => "meter_power_session"
  | meter_session_cost => "meter_session_cost"
  | meter_power => "meter_power"
  | measure_energy_cost => "measure_energy_cost"
  | measure_maximum_charging_current => "measure_maximum_charging_current"
  end.

Definition text_name (a : text) : string :=
  match a with
  | status => "status"
  | user_id => "user_id"
  | user_name => "user_name"
  end.

End Cap.

(** The capability store of one device: the value last applied to each
    capability, [None] for [null]. *)
Record capabilities : Type := {
  booleans : Cap.boolean -> option bool;
  numbers : Cap.number -> option Q;
  texts : Cap.text -> option string
}.

Definition update {K V : Type} (eqb : K -> K -> bool) (f : K -> V) (k : K) (v : V)
  : K -> V :=
  fun k' => if eqb k' k then v else f k'.

(** A kind of capability key: its name, and how it is read from and
    written to the store. *)
Class Capability (K V : Type) : Type := {
  name : K -> string;
  lookup : K -> capabilities -> option V;
  store : K -> option V -> capabilities -> capabilities
}.

#[export] Instance Capability_boolean : Capability Cap.boolean bool :=
  {| name := Cap.boolean_name;
     lookup := fun k c => booleans c k;
     store := fun k v c =>
       {| booleans := update Cap.boolean_eqb (booleans c) k v;
          numbers := numbers c;
          texts := texts c |} |}.

#[export] Instance Capability_number : Capability Cap.number Q :=
  {| name := Cap.number_name;
     lookup := fun k c => numbers c k;
     store := fun k v c =>
       {| booleans := booleans c;
          numbers := update Cap.number_eqb (numbers c) k v;
          texts := texts c |} |}.

#[export] Instance Capability_text : Capability Cap.text string :=
  {| name := Cap.text_name;
     lookup := fun k c => texts c k;
     store := fun k v c =>
       {| booleans := booleans c;
          numbers := numbers c;
          texts := update Cap.text_eqb (texts c) k v |} |}.

(** ** The device, the host and the effects of a method *)

(** [this] of a [wallbox_charger], with the part of the host it drives:
    the availability flag, the [polling] setting (seconds), the handle
    kept in [this.polling], the interval timers the host has running for
    the device (handle and period in milliseconds) and the number of
    timers it has created so far (a handle is never given out twice). *)
Record device : Type := {
  _id : string;
  caps : capabilities;
  available : bool;
  setting_polling : option Q;
  polling : option nat;
  intervals : list (nat * Q);
  timers_created : nat
}.

(** What a method does to the outside, in the order it does it.  A
    capability write records the value it replaces. *)
Inductive effect : Type :=
| GetChargerStatus (id : string)
| GetSessionsList
| SetAvailable
| SetUnavailable
| SetCapabilityValue (capability : string) (previous new : value)
| Trigger (card : string) (tokens : list (string * value))
| SetSettings (seconds : Q)
| SetInterval (handle : nat) (ms : Q)
| ClearTimeout (handle : option nat).

Inductive error : Type :=
| TypeError
| ApiError.

Inductive outcome (A : Type) : Type :=
| Ok (a : A)
| Throw (e : error).

Arguments Ok {A} a.
Arguments Throw {A} e.

Record run (A : Type) : Type := Run {
  result : outcome A;
  after : device;
  effects : list effect
}.

Arguments Run {A} result after effects.
Arguments result {A} r.
Arguments after {A} r.
Arguments effects {A} r.

(** An (awaited) method call. *)
Definition Action (A : Type) : Type := device -> run A.

Definition ret {A} (a : A) : Action A := fun d => Run (Ok a) d [].

Definition throw {A} (e : error) : Action A := fun d => Run (Throw e) d [].

Definition bind {A B} (m : Action A) (k : A -> Action B) : Action B :=
  fun d =>
    let r := m d in
    match result r with
    | Ok a =>
        let r' := k a (after r) in
        Run (result r') (after r') (effects r ++ effects r')
    | Throw e => Run (Throw e) (after r) (effects r)
    end.

(** [try { m } catch (error) { h }] *)
Definition try_catch {A} (m : Action A) (h : error -> Action A) : Action A :=
  fun d =>
    let r := m d in
    match result r with
    | Ok a => r
    | Throw e =>
        let r' := h e (after r) in
        Run (result r') (after r') (effects r ++ effects r')
    end.

Definition this : Action device := fun d => Run (Ok d) d [].

Definition perform (e : effect) (f : device -> device) : Action unit :=
  fun d => Run (Ok tt) (f d) [e].

Declare Scope action_scope.
Delimit Scope action_scope with action.
Bind Scope action_scope with Action.

Notation "x <- m ;; k" := (bind m (fun x => k))
  (at level 61, m at next level, right associativity) : action_scope.
Notation "m ;; k" := (bind m (fun _ => k))
  (at level 61, right associativity) : action_scope.

(** Reading a property of [o]: a TypeError when [o] is undefined. *)
Definition property {A} (o : option A) : Action A :=
  match o with
  | Some a => ret a
  | None => throw TypeError
  end.

(** *** Host API *)

Definition with_caps (c : capabilities) (d : device) : device :=
  {| _id := _id d; caps := c; available := available d;
     setting_polling := setting_polling d; polling := polling d;
     intervals := intervals d; timers_created := timers_created d |}.

Definition with_available (b : bool) (d : device) : device :=
  {| _id := _id d; caps := caps d; available := b;
     setting_polling := setting_polling d; polling := polling d;
     intervals := intervals d; timers_created := timers_created d |}.

Definition with_setting_polling (s : option Q) (d : device) : device :=
  {| _id := _id d; caps := caps d; available := available d;
     setting_polling := s; polling := polling d;
     intervals := intervals d; timers_created := timers_created d |}.

Definition with_polling (h : option nat) (d : device) : device :=
  {| _id := _id d; caps := caps d; available := available d;
     setting_polling := setting_polling d; polling := h;
     intervals := intervals d; timers_created := timers_created d |}.

Definition with_new_interval (ms : Q) (d : device) : device :=
  {| _id := _id d; caps := caps d; available := available d;
     setting_polling := setting_polling d; polling := polling d;
     intervals := (timers_created d, ms) :: intervals d;
     timers_created := S (timers_created d) |}.

Definition with_intervals (l : list (nat * Q)) (d : device) : device :=
  {| _id := _id d; caps := caps d; available := available d;
     setting_polling := setting_polling d; polling := polling d;
     intervals := l; timers_created := timers_created d |}.

Definition getCapabilityValue {K V} `{Capability K V} (k : K) : Action (option V) :=
  fun d => Run (Ok (lookup k (caps d))) d [].

Definition setCapabilityValue {K V} `{JsType V} `{Capability K V}
    (k : K) (v : option V) : Action unit :=
  fun d =>
    Run (Ok tt) (with_caps (store k v (caps d)) d)
        [SetCapabilityValue (name k) (to_value (lookup k (caps d))) (to_value v)].

Definition setAvailable : Action unit := perform SetAvailable (with_available true).

Definition setUnavailable : Action unit := perform SetUnavailable (with_available false).

Definition getSetting_polling : Action (option Q) :=
  fun d => Run (Ok (setting_polling d)) d [].

Definition setSettings_polling (s : Q) : Action unit :=
  perform (SetSettings s) (with_setting_polling (Some s)).

Definition driver_trigger (card : string) (tokens : list (string * value)) : Action unit :=
  perform (Trigger card tokens) (fun d => d).

(** [this.homey.setInterval(this.poll.bind(this), ms)]: the callback is
    always the poll, so a timer is its handle and its period. *)
Definition setInterval (ms : Q) : Action nat :=
  fun d =>
    let h := timers_created d in
    Run (Ok h) (with_new_interval ms d) [SetInterval h ms].

Definition cancel (h : option nat) (l : list (nat * Q)) : list (nat * Q) :=
  match h with
  | Some n => filter (fun t => negb (Nat.eqb (fst t) n)) l
  | None => l
  end.

(** [clearTimeout(h)] / [this.homey.clearInterval(h)] *)
Definition clearTimeout (h : option nat) : Action unit :=
  perform (ClearTimeout h) (fun d => with_intervals (cancel h (intervals d)) d).

(** [this.polling = h] *)
Definition assign_polling (h : nat) : Action unit :=
  fun d => Run (Ok tt) (with_polling (Some h) d) [].

(** *** The Wallbox API client, as far as the poll uses it: what the two
    requests resolve to (or reject with) at the time of the poll. *)
Record WallboxAPI : Type := {
  getChargerStatus : string -> outcome stats;
  getSessionsList : outcome sessions_list
}.

Definition await {A} (e : effect) (o : outcome A) : Action A :=
  fun d => Run o d [e].

(** ** The device class [wallbox_charger] *)

Local Open Scope action_scope.

Definition POLL_INTERVAL : Q := 10.

(** The session cost computed by [whenChangedSetSessionCost] (its local
    [sessionCost]). *)
Definition sessionCost (currentSessionEnergySupplied : Q)
    (oldSessionEnergySupplied oldSessionCost : option Q) (energyCost : Q) : Q :=
  if Qltb currentSessionEnergySupplied (ToNumber oldSessionEnergySupplied)
     || Qeq_bool currentSessionEnergySupplied 0
  then currentSessionEnergySupplied * energyCost
  else ToNumber oldSessionCost
       + (currentSessionEnergySupplied - ToNumber oldSessionEnergySupplied) * energyCost.

(** The body of the loop of [retrieveEnergyHistoricalTotal]. *)
Definition addSessionEnergy (id : string) (totalEnergy : Q) (s : session) : Q :=
  if String.eqb (charger s) id
  then match energy s with
       | Some e => totalEnergy + e
       | None => totalEnergy
       end
  else totalEnergy.

Section wallbox_charger.

(** [status_util.getStatus] of [lib/statuses], which maps a status code
    to a status name. *)
Variable getStatus : Z -> string.

(** [this._api] *)
Variable _api : WallboxAPI.

Definition getChargerStatusName (s : stats) : string :=
  getStatus (status_id s).

Definition retrieveChargerStats : Action (option stats) :=
  try_catch
    (d <- this ;;
     s <- await (GetChargerStatus (_id d)) (getChargerStatus _api (_id d)) ;;
     ret (Some s))
    (fun _ => setUnavailable ;; ret None).

Definition checkDeviceAvailability (s : stats) : Action unit :=
  let newStatus := getChargerStatusName s in
  if String.eqb newStatus "Disconnected" || String.eqb newStatus "Error"
  then setUnavailable
  else setAvailable.

Definition triggerStatusChange (oldStatus : option string) (newStatus : string)
  : Action unit :=
  let tokens := [("oldStatus", to_value oldStatus); ("status", VStr newStatus)] in
  driver_trigger "status_changed" tokens ;;
  if String.eqb newStatus "Error" || String.eqb newStatus "Updating"
  then ret tt
  else
    (if strict_eq oldStatus (Some "Charging")
     then driver_trigger "charging_ended" []
     else if strict_eq oldStatus (Some "Ready")
     then driver_trigger "car_connected" []
     else ret tt) ;;
    (if String.eqb newStatus "Charging"
     then driver_trigger "charging_started" []
     else if String.eqb newStatus "Ready"
     then driver_trigger "car_unplugged" []
     else ret tt).

Definition whenChangedSetAndTriggerStatus (s : stats) : Action unit :=
  oldStatus <- getCapabilityValue Cap.status ;;
  let newStatus := getChargerStatusName s in
  if strict_neq oldStatus (Some newStatus)
  then
    setCapabilityValue Cap.status (Some newStatus) ;;
    triggerStatusChange oldStatus newStatus
  else ret tt.

Definition whenChangedSetCapabilityValue {K V} `{JsType V} `{Capability K V}
    (capabilityName : K) (currentCapabilityValue : option V) : Action unit :=
  oldCapabilityValue <- getCapabilityValue capabilityName ;;
  if strict_neq currentCapabilityValue oldCapabilityValue
  then setCapabilityValue capabilityName currentCapabilityValue
  else ret tt.

(** [for (var session of sessions['data'])] throws when [data] is
    undefined. *)
Definition retrieveEnergyHistoricalTotal : Action Q :=
  sessions <- await GetSessionsList (getSessionsList _api) ;;
  list <- property (data sessions) ;;
  d <- this ;;
  ret (fold_left (addSessionEnergy (_id d)) list 0).

(** The guard [totalEnergy !== undefined] of the source always holds:
    [retrieveEnergyHistoricalTotal] returns a number or throws. *)
Definition whenChangedSetTotalEnergy (currentSessionEnergySupplied : Q)
    (oldSessionEnergySupplied : option Q) : Action unit :=
  totalEnergy <- retrieveEnergyHistoricalTotal ;;
  if strict_neq (currentSessionEnergySupplied + totalEnergy)
                (ToNumber oldSessionEnergySupplied + totalEnergy)
  then setCapabilityValue Cap.meter_power
         (Some (totalEnergy + currentSessionEnergySupplied))
  else ret tt.

Definition whenChangedSetSessionCost (currentSessionEnergySupplied : Q)
    (oldSessionEnergySupplied : option Q) (energyCost : Q) : Action unit :=
  oldSessionCost <- getCapabilityValue Cap.meter_session_cost ;;
  let sessionCost :=
    sessionCost currentSessionEnergySupplied oldSessionEnergySupplied
                oldSessionCost energyCost in
  if strict_neq oldSessionCost (Some sessionCost)
  then setCapabilityValue Cap.meter_session_cost (Some sessionCost)
  else ret tt.

Definition whenChangedSetCapabilities (s : stats) : Action unit :=
  c <- property (config_data s) ;;
  let isLocked := Boolean (locked c) in
  whenChangedSetCapabilityValue Cap.locked (Some isLocked) ;;

  let newStatus := getChargerStatusName s in
  let isOnOff := negb (String.eqb newStatus "Paused") in
  whenChangedSetCapabilityValue Cap.onoff (Some isOnOff) ;;

  c <- property (config_data s) ;;
  let maxAvailableCurrent := max_available_current c in
  whenChangedSetCapabilityValue Cap.maximum_available_current
    (Some maxAvailableCurrent) ;;

  let chargingPowerInW := charging_power s * 1000 in
  whenChangedSetCapabilityValue Cap.measure_power (Some chargingPowerInW) ;;

  oldSessionEnergySupplied <- getCapabilityValue Cap.meter_power_session ;;
  let sessionEnergySupplied := added_energy s in
  c <- property (config_data s) ;;
  let energyCost := energy_price c in
  whenChangedSetTotalEnergy sessionEnergySupplied oldSessionEnergySupplied ;;

  whenChangedSetSessionCost sessionEnergySupplied oldSessionEnergySupplied
    energyCost ;;

  whenChangedSetCapabilityValue Cap.meter_power_session
    (Some sessionEnergySupplied) ;;

  whenChangedSetCapabilityValue Cap.measure_energy_cost (Some energyCost) ;;

  c <- property (config_data s) ;;
  let maxChargingCurrent := max_charging_current c in
  whenChangedSetCapabilityValue Cap.measure_maximum_charging_current
    (Some maxChargingCurrent) ;;

  id <- property (user_id s) ;;
  let userId := toString id in
  whenChangedSetCapabilityValue Cap.user_id (Some userId) ;;

  let userName := user_name s in
  whenChangedSetCapabilityValue Cap.user_name userName.

Definition poll : Action unit :=
  stats <- retrieveChargerStats ;;
  match stats with
  | Some s =>
      checkDeviceAvailability s ;;
      whenChangedSetAndTriggerStatus s ;;
      whenChangedSetCapabilities s
  | None => ret tt
  end.

(** [!this.getSetting('polling')]: unset or zero. *)
Definition unset (p : option Q) : bool :=
  match p with
  | Some n => Qeq_bool n 0
  | None => true
  end.

Definition setupDevicePollingAndDoFirstPoll : Action unit :=
  p <- getSetting_polling ;;
  (if unset p then setSettings_polling POLL_INTERVAL else ret tt) ;;
  p <- getSetting_polling ;;
  h <- setInterval (1000 * ToNumber p) ;;
  assign_polling h ;;
  poll.

Definition onDeleted : Action unit :=
  d <- this ;;
  clearTimeout (polling d).

Definition onSettings (newSettings_polling : Q) : Action unit :=
  d <- this ;;
  clearTimeout (polling d) ;;
  h <- setInterval (1000 * newSettings_polling) ;;
  assign_polling h.

(** The host's side of an interval timer: when the period of timer [h]
    has elapsed the host calls its callback, the poll, if the timer is
    still running. *)
Definition elapsed (h : nat) : Action unit :=
  d <- this ;;
  if existsb (fun t => Nat.eqb (fst t) h) (intervals d)
  then poll
  else ret tt.

End wallbox_charger.

(** ** Reading the effects of a run *)

(** The capabilities written, in order. *)
Fixpoint writes (l : list effect) : list string :=
  match l with
  | [] => []
  | SetCapabilityValue c _ _ :: l' => c :: writes l'
  | _ :: l' => writes l'
  end.

(** The flow cards triggered, in order. *)
Fixpoint events (l : list effect) : list string :=
  match l with
  | [] => []
  | Trigger card _ :: l' => card :: events l'
  | _ :: l' => events l'
  end.

(** The number of poll cycles started: each cycle requests the charger
    status exactly once, as its first step. *)
Fixpoint cycles (l : list effect) : nat :=
  match l with
  | [] => 0%nat
  | GetChargerStatus _ :: l' => S (cycles l')
  | _ :: l' => cycles l'
  end.

(** The three observables that depend on the session energy, and the
    writes to them, in order. *)
Definition dependent (c : string) : bool :=
  String.eqb c "meter_power" || String.eqb c "meter_session_cost"
  || String.eqb c "meter_power_session".

Definition dependent_writes (l : list effect) : list string :=
  filter dependent (writes l).

(** [l] can be obtained from [m] by leaving elements out. *)
Fixpoint is_subsequence (l m : list string) : bool :=
  match l, m with
  | [], _ => true
  | _ :: _, [] => false
  | x :: l', y :: m' =>
      if String.eqb x y then is_subsequence l' m' else is_subsequence l m'
  end.

(** A capability write that replaces a value by one strictly equal to it,
    on values of the same JavaScript type. *)
Definition value_eq (a b : value) : bool :=
  match a, b with
  | VUndefined, VUndefined => true
  | VNull, VNull => true
  | VBool x, VBool y => Bool.eqb x y
  | VNum x, VNum y => Qeq_bool x y
  | VStr x, VStr y => String.eqb x y
  | _, _ => false
  end.

(** ** Sample data for the examples *)

(** A status table for the examples ([lib/statuses] is not part of the
    sources; every theorem below holds for any table).  Unknown codes map
    to a fallback name. *)
Definition example_getStatus (code : Z) : string :=
  match code with
  | 0%Z => "Disconnected"
  | 1%Z => "Ready"
  | 2%Z => "Charging"
  | 3%Z => "Paused"
  | 4%Z => "Error"
  | 5%Z => "Updating"
  | _ => "Unknown"
  end.

Definition no_capabilities : capabilities :=
  {| booleans := fun _ => None; numbers := fun _ => None; texts := fun _ => None |}.

(** A device that has just been created: every capability is [null]. *)
Definition new_device (id : string) : device :=
  {| _id := id; caps := no_capabilities; available := true;
     setting_polling := None; polling := None; intervals := [];
     timers_created := 0 |}.

Definition example_config : config :=
  {| locked := VNum 0; max_available_current := 32; energy_price := 1 # 4;
     max_charging_current := 16 |}.

Definition example_stats (code : Z) (energy : Q) : stats :=
  {| status_id := code; charging_power := 7; added_energy := energy;
     config_data := Some example_config; user_id := Some 42%Z;
     user_name := Some "ann" |}.

(** A snapshot without its [config_data] block. *)
Definition stats_without_config (code : Z) : stats :=
  {| status_id := code; charging_power := 7; added_energy := 2;
     config_data := None; user_id := Some 42%Z; user_name := Some "ann" |}.

Definition example_sessions : list session :=
  [ {| charger := "A"; energy := Some 5 |};
    {| charger := "B"; energy := Some 9 |};
    {| charger := "A"; energy := None |} ].

Definition example_api (s : stats) (l : option (list session)) : WallboxAPI :=
  {| getChargerStatus := fun _ => Ok s;
     getSessionsList := Ok {| data := l |} |}.

(** A session of 4 kWh in progress, with 3 kWh of history; and the same
    charger once that session has ended and moved into the history. *)
Definition api_while_charging : WallboxAPI :=
  example_api (example_stats 2 4) (Some [ {| charger := "A"; energy := Some 3 |} ]).

Definition api_after_session : WallboxAPI :=
  example_api (example_stats 1 0)
    (Some [ {| charger := "A"; energy := Some 3 |};
            {| charger := "A"; energy := Some 4 |} ]).

Definition failing_api : WallboxAPI :=
  {| getChargerStatus := fun _ => Throw ApiError;
     getSessionsList := Throw ApiError |}.

(** ** The specification's EnergyTotalResolver

    The lifetime energy in the words of the specification: the sum of the
    [energy] of every historical session that belongs to [deviceId] and
    has its energy defined, taken in the order of the list, plus the
    energy of the current session. *)
Definition definedEnergyOf (deviceId : string) (s : session) : list Q :=
  if String.eqb (charger s) deviceId
  then match energy s with Some e => [e] | None => [] end
  else [].

Definition spec_lifetimeEnergy (sessionsList : list session) (deviceId : string)
    (currentSessionEnergy : Q) : Q :=
  fold_left Qplus (flat_map (definedEnergyOf deviceId) sessionsList) 0
  + currentSessionEnergy.

(** A capability write that can be told apart from none: the value
    written is not strictly equal to the one it replaces. *)
Definition genuine (e : effect) : Prop :=
  match e with
  | SetCapabilityValue _ previous new => value_eq previous new = false
  | _ => True
  end.

(** ** The numbers of the source

    The embedding above takes every number of a snapshot as present and
    as a rational.  This part keeps the numbers the source computes
    with, IEEE 754 binary64, for the one step the examples need: a field
    that is missing from the snapshot reads as [undefined], arithmetic
    turns it into NaN, and NaN is not strictly equal to anything, itself
    included. *)
Module Binary64.

Import PrimFloat.

(** A snapshot field in arithmetic: [undefined] converts to NaN. *)
Definition number_of (field : option float) : float :=
  match field with
  | Some x => x
  | None => nan
  end.

(** [current !== old] for a numeric capability, which holds [null] or a
    number. *)
Definition strict_neq (current : float) (old : option float) : bool :=
  match old with
  | Some o => negb (eqb current o)
  | None => true
  end.

(** [whenChangedSetCapabilityValue] on a numeric capability: the value
    held afterwards and the capabilities written. *)
Definition whenChangedSetCapabilityValue (capabilityName : string)
    (currentCapabilityValue : float) (oldCapabilityValue : option float)
  : option float * list string :=
  if strict_neq currentCapabilityValue oldCapabilityValue
  then (Some currentCapabilityValue, [capabilityName])
  else (oldCapabilityValue, []).

(** The [measure_power] step of [whenChangedSetCapabilities], from the
    value held. *)
Definition measure_power (charging_power : option float) (held : option float)
  : option float * list string :=
  let chargingPowerInW := mul (number_of charging_power) 1000 in
  whenChangedSetCapabilityValue "measure_power" chargingPowerInW held.


End Binary64.

(** * Vocabulary of the properties *)

(** Strict equality of the modelled types is an equivalence (there is no
    NaN among the numbers). *)
Class StrictEquality (V : Type) `{JsType V} : Prop := {
  strict_eq_refl : forall x : V, strict_eq x x = true;
  strict_eq_sym : forall x y : V, strict_eq x y = strict_eq y x;
  strict_eq_trans : forall x y z : V,
    strict_eq x y = true -> strict_eq y z = true -> strict_eq x z = true
}.

(** A relation between the device before a call, the device after it and
    the effects in between that holds of doing nothing and is closed under
    sequencing. *)
Class Transition (T : device -> device -> list effect -> Prop) : Prop := {
  transition_stay : forall d, T d d [];
  transition_then : forall d d1 d2 l1 l2,
    T d d1 l1 -> T d1 d2 l2 -> T d d2 (l1 ++ l2)%list
}.

(** [T] holds of [m] from every device. *)
Definition satisfies {A} (T : device -> device -> list effect -> Prop)
    (m : Action A) : Prop :=
  forall d, T d (after (m d)) (effects (m d)).

(** The three reconciliation steps of a poll cycle whose fetch
    succeeded. *)
Definition reconcile (getStatus : Z -> string) (api : WallboxAPI) (s : stats)
  : Action unit :=
  checkDeviceAvailability getStatus s ;;
  whenChangedSetAndTriggerStatus getStatus s ;;
  whenChangedSetCapabilities getStatus api s.

(** No poll cycle is started and the timers are left alone. *)
Definition keeps_timers (d d' : device) (l : list effect) : Prop :=
  cycles l = 0%nat
  /\ intervals d' = intervals d
  /\ polling d' = polling d
  /\ timers_created d' = timers_created d.

(** The host has timer [h] running. *)
Definition running (h : nat) (d : device) : bool :=
  existsb (fun t => Nat.eqb (fst t) h) (intervals d).

(** Every handle in use was given out by the host. *)
Definition handles_issued (d : device) : Prop :=
  (forall t, In t (intervals d) -> (fst t < timers_created d)%nat)
  /\ (forall h, polling d = Some h -> (h < timers_created d)%nat).

(** A method that never throws. *)
Definition total {A} (m : Action A) : Prop :=
  forall d, exists a, result (m d) = Ok a.

(** Only [status] is written, and the availability flag is not touched. *)
Definition writes_status_only (d d' : device) (l : list effect) : Prop :=
  (forall c, In c (writes l) -> c = "status")
  /\ booleans (caps d') = booleans (caps d)
  /\ numbers (caps d') = numbers (caps d)
  /\ (forall k, k <> Cap.status -> texts (caps d') k = texts (caps d) k)
  /\ available d' = available d.

(** Strict equality of two values of a type is the strict equality of
    the values they inject to, and none injects to [null]. *)
Class Faithful (V : Type) `{JsType V} : Prop := {
  to_value_eq : forall x y : V, value_eq (to_value x) (to_value y) = strict_eq x y;
  null_left : forall y : V, value_eq VNull (to_value y) = false;
  null_right : forall x : V, value_eq (to_value x) VNull = false
}.

(** Every capability write in the effects is genuine, except possibly
    those of [meter_power]. *)
Definition genuine_writes (d d' : device) (l : list effect) : Prop :=
  forall c previous new,
    In (SetCapabilityValue c previous new) l -> c <> "meter_power" ->
    value_eq previous new = false.

(** [T] holds of [m] from the device [d]. *)
Definition satisfies_at {A} (T : device -> device -> list effect -> Prop)
    (m : Action A) (d : device) : Prop :=
  T d (after (m d)) (effects (m d)).

(** Storing under [k] does not change what is held under [k']. *)
Definition independent {K V K' V'} `{Capability K V} `{Capability K' V'}
    (k : K) (k' : K') : Prop :=
  forall x c, lookup k' (store k x c) = lookup k' c.

(** The store gives back what was put in. *)
Class Stored (K V : Type) `{Capability K V} : Prop :=
  lookup_store : forall (k : K) (x : option V) c, lookup k (store k x c) = x.

(** As long as [meter_power_session] holds the current session energy,
    [meter_power] is neither written nor changed. *)
Definition skips_lifetime (current : Q) (d d' : device) (l : list effect) : Prop :=
  strict_eq (lookup Cap.meter_power_session (caps d)) (Some current) = true ->
  strict_eq (lookup Cap.meter_power_session (caps d')) (Some current) = true
  /\ ~ In "meter_power" (writes l)
  /\ lookup Cap.meter_power (caps d') = lookup Cap.meter_power (caps d).

(** The dependent writes of a method, in order, are among [allowed], in
    that order. *)
Definition writes_within {A} (allowed : list string) (m : Action A) : Prop :=
  forall d, is_subsequence (dependent_writes (effects (m d))) allowed = true.

(** The session cost written by a method is the one computed from the
    session energy and cost held when the method starts. *)
Definition prices {A} (previous previousCost : option Q) (current price : Q)
    (m : Action A) : Prop :=
  forall d,
    lookup Cap.meter_power_session (caps d) = previous ->
    lookup Cap.meter_session_cost (caps d) = previousCost ->
    forall p v,
      In (SetCapabilityValue "meter_session_cost" p v) (effects (m d)) ->
      v = VNum (sessionCost current previous previousCost price).

(** Neither the held session energy nor the held session cost changes,
    and the session cost is not written. *)
Definition keeps_session (d d' : device) (l : list effect) : Prop :=
  lookup Cap.meter_power_session (caps d') = lookup Cap.meter_power_session (caps d)
  /\ lookup Cap.meter_session_cost (caps d') = lookup Cap.meter_session_cost (caps d)
  /\ ~ In "meter_session_cost" (writes l).

(** The session cost is not written. *)
Definition no_cost_write (d d' : device) (l : list effect) : Prop :=
  ~ In "meter_session_cost" (writes l).

(** The value held under [k] is not changed. *)
Definition keeps {K V} `{Capability K V} (k : K) (d d' : device) (l : list effect)
  : Prop :=
  lookup k (caps d') = lookup k (caps d).

(** After [m], whether it throws or not, the value held under [k]
    satisfies [P]. *)
Definition reaches {K V A} `{Capability K V} (k : K) (P : option V -> Prop)
    (m : Action A) : Prop :=
  forall d, P (lookup k (caps (after (m d)))).

(** The held session cost is the cost of the current session energy for
    some previous energy and cost. *)
Definition is_cost (current price : Q) (held : option Q) : Prop :=
  exists previous previousCost,
    strict_eq held (Some (sessionCost current previous previousCost price)) = true.

(** No capability is written, no flow card is triggered, and the
    capabilities stay as they are. *)
Definition quiet (d d' : device) (l : list effect) : Prop :=
  writes l = [] /\ events l = [] /\ caps d' = caps d.


(** The capabilities hold what the snapshot [s] gives them, as far as a
    poll with this snapshot and this session list gets. *)
Definition in_sync (getStatus : Z -> string) (api : WallboxAPI) (s : stats)
    (c : capabilities) : Prop :=
  strict_eq (lookup Cap.status c) (Some (getStatus (status_id s))) = true
  /\ forall cfg, config_data s = Some cfg ->
     strict_eq (Some (Boolean (locked cfg))) (lookup Cap.locked c) = true
     /\ strict_eq (Some (negb (String.eqb (getStatus (status_id s)) "Paused")))
          (lookup Cap.onoff c) = true
     /\ strict_eq (Some (max_available_current cfg))
          (lookup Cap.maximum_available_current c) = true
     /\ strict_eq (Some (charging_power s * 1000)) (lookup Cap.measure_power c) = true
     /\ forall l, getSessionsList api = Ok {| data := Some l |} ->
        is_cost (added_energy s) (energy_price cfg) (lookup Cap.meter_session_cost c)
        /\ strict_eq (Some (added_energy s)) (lookup Cap.meter_power_session c) = true
        /\ strict_eq (Some (energy_price cfg)) (lookup Cap.measure_energy_cost c) = true
        /\ strict_eq (Some (max_charging_current cfg))
             (lookup Cap.measure_maximum_charging_current c) = true
        /\ forall u, user_id s = Some u ->
           strict_eq (Some (toString u)) (lookup Cap.user_id c) = true
           /\ strict_eq (user_name s) (lookup Cap.user_name c) = true.

(** The device keeps its id. *)
Definition keeps_id (d d' : device) (l : list effect) : Prop := _id d' = _id d.

(** * More vocabulary: the rest of the poll cycle *)

(** The number of requests for the session list. *)
Fixpoint session_requests (l : list effect) : nat :=
  match l with
  | [] => 0%nat
  | GetSessionsList :: l' => S (session_requests l')
  | _ :: l' => session_requests l'
  end.

(** The availability flag is left alone. *)
Definition keeps_available (d d' : device) (l : list effect) : Prop :=
  available d' = available d.

(** No flow card is triggered. *)
Definition no_events (d d' : device) (l : list effect) : Prop :=
  events l = [].

(** The session list is not requested. *)
Definition no_session_request (d d' : device) (l : list effect) : Prop :=
  session_requests l = 0%nat.

(** Every run of [m] requests the session list [n] times. *)
Definition requests {A} (n : nat) (m : Action A) : Prop :=
  forall d, session_requests (effects (m d)) = n.

(** The capability [c] is not written. *)
Definition never_writes (c : string) (d d' : device) (l : list effect) : Prop :=
  ~ In c (writes l).

(** [Q] holds of the outcome, the device and the effects of running [m]
    from [d]. *)
Definition wp {A} (m : Action A) (d : device)
    (Q : outcome A -> device -> list effect -> Prop) : Prop :=
  Q (result (m d)) (after (m d)) (effects (m d)).

(** The capabilities written by a method, in order, are among [allowed],
    in that order. *)
Definition writes_in_order {A} (allowed : list string) (m : Action A) : Prop :=
  forall d, is_subsequence (writes (effects (m d))) allowed = true.

(** The twelve capabilities of a poll cycle, in the order the cycle gets
    to them. *)
Definition reconciled : list string :=
  ["status"; "locked"; "onoff"; "maximum_available_current"; "measure_power";
   "meter_power"; "meter_session_cost"; "meter_power_session";
   "measure_energy_cost"; "measure_maximum_charging_current"; "user_id";
   "user_name"].

(** The error a request for the session list ends in: the rejection of
    the request, or the TypeError of iterating over a missing [data]. *)
Definition session_list_error (api : WallboxAPI) : option error :=
  match getSessionsList api with
  | Ok sessions =>
      match data sessions with
      | Some _ => None
      | None => Some TypeError
      end
  | Throw e => Some e
  end.

(** The capabilities a poll cycle gets to before it asks for the session
    list, and those it gets to before it reads the user id. *)
Definition before_lifetime : list string :=
  ["status"; "locked"; "onoff"; "maximum_available_current"; "measure_power"].

Definition before_user : list string :=
  ["status"; "locked"; "onoff"; "maximum_available_current"; "measure_power";
   "meter_power"; "meter_session_cost"; "meter_power_session";
   "measure_energy_cost"; "measure_maximum_charging_current"].

(** How a poll cycle ends, read off the answers of the API: a failed
    fetch is caught; a snapshot without config, a session list that cannot
    be had and a snapshot without user id are not. *)
Definition cycle_outcome (api : WallboxAPI) (id : string) : outcome unit :=
  match getChargerStatus api id with
  | Throw _ => Ok tt
  | Ok s =>
      match config_data s with
      | None => Throw TypeError
      | Some _ =>
          match session_list_error api with
          | Some e => Throw e
          | None =>
              match user_id s with
              | None => Throw TypeError
              | Some _ => Ok tt
              end
          end
      end
  end.

(** What the host does with a device once it is set up: the user changes
    the polling setting, or the period of a timer elapses. *)
Inductive host_event : Type :=
| SettingsChanged (seconds : Q)
| PeriodElapsed (handle : nat).

Definition on_event (getStatus : Z -> string) (api : WallboxAPI) (e : host_event)
  : Action unit :=
  match e with
  | SettingsChanged seconds => onSettings seconds
  | PeriodElapsed h => elapsed getStatus api h
  end.

(** The device after a series of host events, each with the API as it
    answers at the time. *)
Definition after_events (getStatus : Z -> string)
    (l : list (WallboxAPI * host_event)) (d : device) : device :=
  fold_left (fun d ae => after (on_event getStatus (fst ae) (snd ae) d)) l d.

(** The polling period in force after a series of host events. *)
Definition configured (seconds : Q) (l : list (WallboxAPI * host_event)) : Q :=
  fold_left (fun p ae => match snd ae with
                         | SettingsChanged s => s
                         | PeriodElapsed _ => p
                         end) l seconds.

(** The host has exactly one timer running for the device, of period
    [ms], and the device holds its handle. *)
Definition one_timer (ms : Q) (d : device) : Prop :=
  exists h, intervals d = [(h, ms)] /\ polling d = Some h.

(** A session that counts in the historical total of the device [id]. *)
Definition counted (id : string) (s : session) : bool :=
  String.eqb (charger s) id
  && match energy s with
     | Some _ => true
     | None => false
     end.

(** * Capability registration

    [registerCapabilities] and [removeUnusedCapabilities] work on the
    capability ids the host keeps for the device; the other methods do not
    touch them.  The host is modelled by the ids, in its order, and the
    calls that changed them. *)

Inductive registration : Type :=
| AddCapability (id : string)
| RemoveCapability (id : string).

Record registered : Type := {
  ids : list string;
  calls : list registration
}.

Definition hasCapability (id : string) (r : registered) : bool :=
  existsb (String.eqb id) (ids r).

Definition addCapability (id : string) (r : registered) : registered :=
  {| ids := ids r ++ [id]; calls := calls r ++ [AddCapability id] |}.

Definition removeCapability (id : string) (r : registered) : registered :=
  {| ids := filter (fun c => negb (String.eqb id c)) (ids r);
     calls := calls r ++ [RemoveCapability id] |}.

(** [if (this.hasCapability(id)) await this.removeCapability(id);] *)
Definition remove_if_present (id : string) (r : registered) : registered :=
  if hasCapability id r then removeCapability id r else r.

(** [if (!this.hasCapability(id)) await this.addCapability(id);] *)
Definition add_if_missing (id : string) (r : registered) : registered :=
  if negb (hasCapability id r) then addCapability id r else r.

Definition removeUnusedCapabilities (r : registered) : registered :=
  let r := remove_if_present "measure_current" r in
  let r := remove_if_present "charge_amp" r in
  let r := remove_if_present "charge_amp_limit" r in
  remove_if_present "charging" r.

Definition registerCapabilities (r : registered) : registered :=
  let r := removeUnusedCapabilities r in
  let r := add_if_missing "meter_power_session" r in
  let r := add_if_missing "meter_session_cost" r in
  let r := add_if_missing "maximum_available_current" r in
  let r := add_if_missing "measure_maximum_charging_current" r in
  let r := add_if_missing "user_id" r in
  let r := add_if_missing "user_name" r in
  add_if_missing "measure_energy_cost" r.

(** The capabilities [removeUnusedCapabilities] removes and those
    [registerCapabilities] adds, in the order of the source. *)
Definition unused : list string :=
  ["measure_current"; "charge_amp"; "charge_amp_limit"; "charging"].

Definition added : list string :=
  ["meter_power_session"; "meter_session_cost"; "maximum_available_current";
   "measure_maximum_charging_current"; "user_id"; "user_name";
   "measure_energy_cost"].

Definition listed (id : string) (l : list string) : bool :=
  existsb (String.eqb id) l.

(** One [remove_if_present] after the other, and one [add_if_missing]
    after the other. *)
Definition remove_all (l : list string) (r : registered) : registered :=
  fold_left (fun r id => remove_if_present id r) l r.

Definition add_all (l : list string) (r : registered) : registered :=
  fold_left (fun r id => add_if_missing id r) l r.

(** * Properties *)

(** ** Arithmetic and equality *)

Lemma Qltb_lt (x y : Q) : Qltb x y = true <-> x < y.
Proof.
  unfold Qltb. rewrite negb_true_iff. split; intro H.
  - apply Qnot_le_lt. intro L. apply Qle_bool_iff in L. congruence.
  - destruct (Qle_bool y x) eqn:E; [|reflexivity].
    apply Qle_bool_iff in E. exfalso. exact (Qlt_not_le _ _ H E).
Qed.

Lemma strict_neq_false {V} `{JsType V} (a b : V) :
  strict_neq a b = false <-> strict_eq a b = true.
Proof. unfold strict_neq. apply negb_false_iff. Qed.

Lemma strict_neq_true {V} `{JsType V} (a b : V) :
  strict_neq a b = true <-> strict_eq a b = false.
Proof. unfold strict_neq. apply negb_true_iff. Qed.

#[export] Instance StrictEquality_bool : StrictEquality bool.
Proof.
  split; simpl.
  - apply Bool.eqb_reflx.
  - intros [] []; reflexivity.
  - intros [] [] []; simpl; congruence.
Qed.

#[export] Instance StrictEquality_number : StrictEquality Q.
Proof.
  split; simpl.
  - apply Qeq_bool_refl.
  - intros x y. destruct (Qeq_bool x y) eqn:E, (Qeq_bool y x) eqn:F; try reflexivity.
    + apply Qeq_bool_iff in E. symmetry in E. apply Qeq_bool_iff in E. congruence.
    + apply Qeq_bool_iff in F. symmetry in F. apply Qeq_bool_iff in F. congruence.
  - intros x y z E F. apply Qeq_bool_iff in E, F. apply Qeq_bool_iff.
    now rewrite E.
Qed.

#[export] Instance StrictEquality_string : StrictEquality string.
Proof.
  split; simpl.
  - apply String.eqb_refl.
  - apply String.eqb_sym.
  - intros x y z E F. apply String.eqb_eq in E, F. subst. apply String.eqb_refl.
Qed.

#[export] Instance StrictEquality_nullable {V} `{StrictEquality V} :
  StrictEquality (option V).
Proof.
  split; simpl.
  - intros [x|]; simpl; [apply strict_eq_refl | reflexivity].
  - intros [x|] [y|]; simpl; try reflexivity. apply strict_eq_sym.
  - intros [x|] [y|] [z|]; simpl; try congruence. apply strict_eq_trans.
Qed.

(** ** Running a sequence of calls *)

Lemma bind_ok {A B} (m : Action A) (k : A -> Action B) (d : device) (a : A) :
  result (m d) = Ok a ->
  bind m k d =
  Run (result (k a (after (m d)))) (after (k a (after (m d))))
      (effects (m d) ++ effects (k a (after (m d)))).
Proof. intro E. unfold bind. rewrite E. reflexivity. Qed.

Lemma bind_throw {A B} (m : Action A) (k : A -> Action B) (d : device) (e : error) :
  result (m d) = Throw e ->
  bind m k d = Run (Throw e) (after (m d)) (effects (m d)).
Proof. intro E. unfold bind. rewrite E. reflexivity. Qed.

(** ** C1: the session cost *)

(** C1.  For every current and previously held session energy, previously
    held cost and price: when the current energy is below the previous one
    or is zero, the session cost is [current * price]; otherwise it is
    [previous cost + (current - previous energy) * price].  (A capability
    never written reads [null], which counts as 0.)  The cost held by
    [meter_session_cost] after [whenChangedSetSessionCost] is that value. *)
Theorem session_cost_reset_or_continue
    (current price : Q) (previous previousCost : option Q) (d : device) :
  (current < ToNumber previous \/ current == 0 ->
   sessionCost current previous previousCost price = current * price)
  /\ (~ (current < ToNumber previous \/ current == 0) ->
      sessionCost current previous previousCost price
      = ToNumber previousCost + (current - ToNumber previous) * price)
  /\ strict_eq
       (lookup Cap.meter_session_cost
          (caps (after (whenChangedSetSessionCost current previous price d))))
       (Some (sessionCost current previous
                (lookup Cap.meter_session_cost (caps d)) price))
     = true.
Proof.
  split; [|split].
  - intros [L|Z]; unfold sessionCost.
    + apply Qltb_lt in L. rewrite L. reflexivity.
    + apply Qeq_bool_iff in Z. rewrite Z, orb_true_r. reflexivity.
  - intro N. unfold sessionCost.
    destruct (Qltb current (ToNumber previous)) eqn:L.
    + exfalso. apply N. left. now apply Qltb_lt.
    + destruct (Qeq_bool current 0) eqn:Z; [|reflexivity].
      exfalso. apply N. right. now apply Qeq_bool_iff.
  - unfold whenChangedSetSessionCost, bind, getCapabilityValue. cbn [result after].
    destruct (strict_neq _ _) eqn:E.
    + cbn. unfold update. cbn. apply Qeq_bool_refl.
    + apply strict_neq_false in E. cbn [after]. exact E.
Qed.

Lemma session_cost_reset_or_continue_witness :
  sessionCost 1 (Some 3) (Some 1) (1 # 4) = 1 * (1 # 4)
  /\ sessionCost 5 (Some 3) (Some 1) (1 # 4) = 1 + (5 - 3) * (1 # 4).
Proof.
  split.
  - apply (proj1 (session_cost_reset_or_continue 1 (1 # 4) (Some 3) (Some 1)
                    (new_device "A"))).
    left. reflexivity.
  - apply (proj1 (proj2 (session_cost_reset_or_continue 5 (1 # 4) (Some 3) (Some 1)
                           (new_device "A")))).
    intros [L|Z]; [revert L | revert Z]; vm_compute; congruence.
Defined.

(** ** C2: the events of a status transition *)

Ltac case_if :=
  match goal with
  | |- context [if ?b then _ else _] => destruct b eqn:?
  end.

(** C2.  For every old status (a name, or [null] before the first poll)
    and every new status, [triggerStatusChange] triggers [status_changed]
    (with both statuses as tokens) first; when the new status is Error or
    Updating it triggers nothing else; Charging -> Ready triggers exactly
    [status_changed; charging_ended; car_unplugged] in that order and
    Ready -> Error exactly [status_changed].  It writes no capability and
    leaves the device as it is. *)
Theorem status_transition_events
    (oldStatus : option string) (newStatus : string) (d : device) :
  let r := triggerStatusChange oldStatus newStatus d in
  let changed :=
    Trigger "status_changed"
      [("oldStatus", to_value oldStatus); ("status", VStr newStatus)] in
  (exists rest, effects r = changed :: rest
                /\ events (effects r) = "status_changed" :: events rest)
  /\ (newStatus = "Error" \/ newStatus = "Updating" -> effects r = [changed])
  /\ events (effects (triggerStatusChange (Some "Charging") "Ready" d))
     = ["status_changed"; "charging_ended"; "car_unplugged"]
  /\ events (effects (triggerStatusChange (Some "Ready") "Error" d))
     = ["status_changed"]
  /\ writes (effects r) = []
  /\ after r = d
  /\ result r = Ok tt.
Proof.
  cbv zeta. repeat split.
  - unfold triggerStatusChange, bind, driver_trigger, perform.
    cbn [result after effects app]. eexists. split; reflexivity.
  - intros [E|E]; subst newStatus; reflexivity.
  - unfold triggerStatusChange, bind, driver_trigger, perform, ret.
    cbn [result after effects]. repeat (case_if; cbn [result after effects]);
      reflexivity.
  - unfold triggerStatusChange, bind, driver_trigger, perform, ret.
    cbn [result after effects]. repeat (case_if; cbn [result after effects]);
      reflexivity.
  - unfold triggerStatusChange, bind, driver_trigger, perform, ret.
    cbn [result after effects]. repeat (case_if; cbn [result after effects]);
      reflexivity.
Qed.

Lemma status_transition_events_witness :
  effects (triggerStatusChange (Some "Charging") "Updating" (new_device "A"))
  = [Trigger "status_changed"
       [("oldStatus", VStr "Charging"); ("status", VStr "Updating")]].
Proof.
  apply (proj1 (proj2 (status_transition_events (Some "Charging") "Updating"
                         (new_device "A")))).
  right. reflexivity.
Defined.

(** ** Properties kept by every step of a method

    A [Transition] holds of a whole method as soon as it holds of the
    host calls the method makes. *)

Section satisfies.

Context (T : device -> device -> list effect -> Prop) `{!Transition T}.

Lemma satisfies_ret {A} (a : A) : satisfies T (ret a).
Proof. intro d. apply transition_stay. Qed.

Lemma satisfies_throw {A} (e : error) : satisfies T (@throw A e).
Proof. intro d. apply transition_stay. Qed.

Lemma satisfies_this : satisfies T this.
Proof. intro d. apply transition_stay. Qed.

Lemma satisfies_property {A} (o : option A) : satisfies T (property o).
Proof. destruct o; [apply satisfies_ret | apply satisfies_throw]. Qed.

Lemma satisfies_getCapabilityValue {K V} `{Capability K V} (k : K) :
  satisfies T (getCapabilityValue k).
Proof. intro d. apply transition_stay. Qed.

Lemma satisfies_getSetting_polling : satisfies T getSetting_polling.
Proof. intro d. apply transition_stay. Qed.

Lemma satisfies_bind {A B} (m : Action A) (k : A -> Action B) :
  satisfies T m -> (forall a, satisfies T (k a)) -> satisfies T (bind m k).
Proof.
  intros Hm Hk d. unfold bind. destruct (result (m d)) eqn:E; cbn [after effects].
  - eapply transition_then; [apply Hm | apply Hk].
  - apply Hm.
Qed.

Lemma satisfies_try_catch {A} (m : Action A) (h : error -> Action A) :
  satisfies T m -> (forall e, satisfies T (h e)) -> satisfies T (try_catch m h).
Proof.
  intros Hm Hh d. unfold try_catch. destruct (result (m d)) eqn:E; cbn [after effects].
  - apply Hm.
  - eapply transition_then; [apply Hm | apply Hh].
Qed.

End satisfies.

(** One step of the proof that a method satisfies [T]: the method is
    taken apart along its sequencing and its branches. *)
Ltac satisfies_step_with known :=
  cbv zeta;
  first
    [ known
    | apply satisfies_ret; exact _
    | apply satisfies_throw; exact _
    | apply satisfies_this; exact _
    | apply satisfies_property; exact _
    | apply satisfies_getCapabilityValue; exact _
    | apply satisfies_getSetting_polling; exact _
    | apply satisfies_bind; [exact _ | | intro]
    | apply satisfies_try_catch; [exact _ | | intro]
    | match goal with
      | |- satisfies _ (if ?b then _ else _) => destruct b
      | |- satisfies _ (match ?o with Some _ => _ | None => _ end) => destruct o
      end ].

Ltac satisfies_step := satisfies_step_with fail.

(** ** The two ways a poll cycle starts *)

Lemma poll_fetched (getStatus : Z -> string) (api : WallboxAPI) (d : device)
    (s : stats) :
  getChargerStatus api (_id d) = Ok s ->
  poll getStatus api d
  = Run (result (reconcile getStatus api s d)) (after (reconcile getStatus api s d))
        (GetChargerStatus (_id d) :: effects (reconcile getStatus api s d)).
Proof.
  intro E. unfold poll. unfold bind at 1.
  unfold retrieveChargerStats, try_catch, bind, await, this.
  cbn [result after effects]. rewrite E. reflexivity.
Qed.

Lemma poll_failed (getStatus : Z -> string) (api : WallboxAPI) (d : device)
    (e : error) :
  getChargerStatus api (_id d) = Throw e ->
  poll getStatus api d
  = Run (Ok tt) (with_available false d) [GetChargerStatus (_id d); SetUnavailable].
Proof.
  intro E. unfold poll. unfold bind at 1.
  unfold retrieveChargerStats, try_catch, bind, await, this.
  cbn [result after effects]. rewrite E. reflexivity.
Qed.

(** ** C4: a failed fetch *)

(** C4.  When the request for the charger status fails, the poll cycle
    ends normally after marking the device unavailable: no capability is
    written (each keeps its value), the availability flag is false and no
    flow card is triggered. *)
Theorem fetch_failure_aborts_cycle
    (getStatus : Z -> string) (api : WallboxAPI) (d : device) (e : error) :
  getChargerStatus api (_id d) = Throw e ->
  let r := poll getStatus api d in
  result r = Ok tt
  /\ caps (after r) = caps d
  /\ available (after r) = false
  /\ events (effects r) = []
  /\ writes (effects r) = []
  /\ effects r = [GetChargerStatus (_id d); SetUnavailable].
Proof.
  intro E. cbv zeta. rewrite (poll_failed _ _ _ _ E). repeat split.
Qed.

Lemma fetch_failure_aborts_cycle_witness :
  let r := poll example_getStatus failing_api (new_device "A") in
  result r = Ok tt
  /\ caps (after r) = caps (new_device "A")
  /\ available (after r) = false
  /\ events (effects r) = []
  /\ writes (effects r) = []
  /\ effects r = [GetChargerStatus "A"; SetUnavailable].
Proof.
  apply (fetch_failure_aborts_cycle example_getStatus failing_api (new_device "A")
           ApiError).
  reflexivity.
Defined.

(** ** C9: the poll timer *)

Lemma cycles_app (l1 l2 : list effect) :
  cycles (l1 ++ l2) = (cycles l1 + cycles l2)%nat.
Proof.
  induction l1 as [|e l1 IH]; [reflexivity|].
  destruct e; cbn; rewrite ?IH; reflexivity.
Qed.

#[export] Instance Transition_keeps_timers : Transition keeps_timers.
Proof.
  split.
  - intro d. repeat split.
  - intros d d1 d2 l1 l2 (C1 & I1 & P1 & N1) (C2 & I2 & P2 & N2).
    unfold keeps_timers. rewrite cycles_app, C1, C2. repeat split; congruence.
Qed.

Lemma reconcile_keeps_timers (getStatus : Z -> string) (api : WallboxAPI) (s : stats) :
  satisfies keeps_timers
    (checkDeviceAvailability getStatus s ;;
     whenChangedSetAndTriggerStatus getStatus s ;;
     whenChangedSetCapabilities getStatus api s).
Proof.
  unfold checkDeviceAvailability, whenChangedSetAndTriggerStatus,
    whenChangedSetCapabilities, triggerStatusChange, whenChangedSetTotalEnergy,
    whenChangedSetSessionCost, retrieveEnergyHistoricalTotal,
    whenChangedSetCapabilityValue.
  repeat satisfies_step; intro d; repeat split.
Qed.

(** A poll cycle requests the charger status exactly once and leaves the
    timers alone. *)
Lemma poll_one_cycle (getStatus : Z -> string) (api : WallboxAPI) (d : device) :
  let r := poll getStatus api d in
  cycles (effects r) = 1%nat
  /\ intervals (after r) = intervals d
  /\ polling (after r) = polling d
  /\ timers_created (after r) = timers_created d.
Proof.
  cbv zeta. destruct (getChargerStatus api (_id d)) as [s|e] eqn:E.
  - rewrite (poll_fetched _ _ _ _ E). cbn [result after effects cycles].
    destruct (reconcile_keeps_timers getStatus api s d) as (C & I & P & N).
    fold (reconcile getStatus api s) in C, I, P, N. rewrite C. repeat split; assumption.
  - rewrite (poll_failed _ _ _ _ E). repeat split.
Qed.

Lemma poll_starts_with_fetch (getStatus : Z -> string) (api : WallboxAPI)
    (d : device) :
  exists rest, effects (poll getStatus api d) = GetChargerStatus (_id d) :: rest.
Proof.
  destruct (getChargerStatus api (_id d)) as [s|e] eqn:E.
  - rewrite (poll_fetched _ _ _ _ E). eexists. reflexivity.
  - rewrite (poll_failed _ _ _ _ E). eexists. reflexivity.
Qed.

(** [setupDevicePollingAndDoFirstPoll] is: default the setting, start the
    timer, keep its handle, poll. *)
Lemma setup_runs_poll (getStatus : Z -> string) (api : WallboxAPI) (d : device) :
  let seconds :=
    if unset (setting_polling d) then POLL_INTERVAL
    else ToNumber (setting_polling d) in
  let d1 :=
    with_polling (Some (timers_created d))
      (with_new_interval (1000 * seconds)
         (if unset (setting_polling d)
          then with_setting_polling (Some POLL_INTERVAL) d else d)) in
  setupDevicePollingAndDoFirstPoll getStatus api d
  = Run (result (poll getStatus api d1)) (after (poll getStatus api d1))
        ((if unset (setting_polling d) then [SetSettings POLL_INTERVAL] else [])
         ++ SetInterval (timers_created d) (1000 * seconds)
            :: effects (poll getStatus api d1))%list.
Proof.
  cbv zeta.
  unfold setupDevicePollingAndDoFirstPoll, bind, getSetting_polling,
    setSettings_polling, setInterval, assign_polling, perform, ret.
  cbn [result after effects].
  destruct (unset (setting_polling d)); cbn [result after effects app];
    reflexivity.
Qed.

(** C9.  [setupDevicePollingAndDoFirstPoll] starts one interval timer, of
    period 1000 * the polling setting (10 seconds when the setting is
    unset), keeps its handle and runs exactly one poll cycle itself.  Each
    time the period of a running timer elapses exactly one cycle runs; a
    timer that is not running runs none.  [onSettings] cancels the timer
    whose handle the device holds, starts one with the new period, keeps
    the new handle and runs no cycle; the cancelled timer no longer runs. *)
Theorem scheduler_start_and_reconfigure
    (getStatus : Z -> string) (api : WallboxAPI) (d : device) (seconds : Q) :
  handles_issued d ->
  let start := setupDevicePollingAndDoFirstPoll getStatus api d in
  let period :=
    1000 * (if unset (setting_polling d) then POLL_INTERVAL
            else ToNumber (setting_polling d)) in
  let reconfigure := onSettings seconds d in
  (cycles (effects start) = 1%nat
   /\ exists rest, effects start
        = ((if unset (setting_polling d) then [SetSettings POLL_INTERVAL] else [])
           ++ SetInterval (timers_created d) period
              :: GetChargerStatus (_id d) :: rest)%list)
  /\ intervals (after start) = (timers_created d, period) :: intervals d
  /\ polling (after start) = Some (timers_created d)
  /\ (forall h d',
        cycles (effects (elapsed getStatus api h d'))
        = if running h d' then 1%nat else 0%nat)
  /\ effects reconfigure
     = [ClearTimeout (polling d); SetInterval (timers_created d) (1000 * seconds)]
  /\ cycles (effects reconfigure) = 0%nat
  /\ intervals (after reconfigure)
     = (timers_created d, 1000 * seconds) :: cancel (polling d) (intervals d)
  /\ polling (after reconfigure) = Some (timers_created d)
  /\ (forall h, polling d = Some h -> running h (after reconfigure) = false).
Proof.
  intros [HI HP]. cbv zeta.
  pose proof (setup_runs_poll getStatus api d) as S. cbv zeta in S.
  match type of S with _ = Run _ _ (_ ++ _ :: effects (poll _ _ ?x))%list =>
    destruct (poll_one_cycle getStatus api x) as (C & I & P & _);
    pose proof (poll_starts_with_fetch getStatus api x) as [rest F]
  end.
  cbv zeta in C, I, P. rewrite S. cbn [result after effects].
  repeat apply conj.
  - rewrite cycles_app. cbn [cycles]. rewrite C.
    destruct (unset (setting_polling d)); reflexivity.
  - rewrite F. exists rest.
    destruct (unset (setting_polling d)); reflexivity.
  - rewrite I. destruct (unset (setting_polling d)); reflexivity.
  - rewrite P. reflexivity.
  - intros h d'. unfold elapsed, bind, this, running. cbn [result after effects app].
    destruct (existsb _ (intervals d')); [|reflexivity].
    apply (poll_one_cycle getStatus api d').
  - reflexivity.
  - reflexivity.
  - reflexivity.
  - reflexivity.
  - intros h E. unfold running, onSettings, bind, this, clearTimeout, setInterval,
      assign_polling, perform. cbn. rewrite E. cbn.
    destruct (Nat.eqb (timers_created d) h) eqn:N.
    + apply Nat.eqb_eq in N. specialize (HP h E). lia.
    + cbn. clear. induction (intervals d) as [|t l IH]; [reflexivity|].
      cbn. destruct (Nat.eqb (fst t) h) eqn:G; cbn; [exact IH|].
      rewrite G. exact IH.
Qed.

Lemma scheduler_start_and_reconfigure_witness :
  let start := setupDevicePollingAndDoFirstPoll example_getStatus failing_api
                 (new_device "A") in
  cycles (effects start) = 1%nat
  /\ intervals (after start) = [(0%nat, 1000 * POLL_INTERVAL)]
  /\ intervals (after (onSettings 30 (after start))) = [(1%nat, 1000 * 30)]
  /\ cycles (effects (onSettings 30 (after start))) = 0%nat.
Proof.
  assert (H0 : handles_issued (new_device "A")).
  { split; cbn.
    - intros t [].
    - discriminate. }
  pose proof (scheduler_start_and_reconfigure example_getStatus failing_api
                (new_device "A") 30 H0) as S.
  cbv zeta in S. destruct S as ((C & _) & I & _).
  assert (H1 : handles_issued
                 (after (setupDevicePollingAndDoFirstPoll example_getStatus
                           failing_api (new_device "A")))).
  { split; cbn.
    - intros t [E|[]]. subst t. cbn. lia.
    - intros h E. injection E as <-. lia. }
  pose proof (scheduler_start_and_reconfigure example_getStatus failing_api _ 30 H1)
    as S.
  cbv zeta in S. destruct S as (_ & _ & _ & _ & _ & Z & J & _).
  cbv zeta. repeat apply conj; [exact C | exact I | exact J | exact Z].
Defined.

(** ** The steps of the reconciliation, one by one *)

Lemma writes_app (l1 l2 : list effect) :
  writes (l1 ++ l2) = (writes l1 ++ writes l2)%list.
Proof.
  induction l1 as [|e l1 IH]; [reflexivity|].
  destruct e; cbn; rewrite ?IH; reflexivity.
Qed.

Lemma events_app (l1 l2 : list effect) :
  events (l1 ++ l2) = (events l1 ++ events l2)%list.
Proof.
  induction l1 as [|e l1 IH]; [reflexivity|].
  destruct e; cbn; rewrite ?IH; reflexivity.
Qed.

Lemma result_bind_ok {A B} (m : Action A) (k : A -> Action B) (d : device) (a : A) :
  result (m d) = Ok a -> result (bind m k d) = result (k a (after (m d))).
Proof. intro E. rewrite (bind_ok m k d a E). reflexivity. Qed.

Lemma after_bind_ok {A B} (m : Action A) (k : A -> Action B) (d : device) (a : A) :
  result (m d) = Ok a -> after (bind m k d) = after (k a (after (m d))).
Proof. intro E. rewrite (bind_ok m k d a E). reflexivity. Qed.

Lemma effects_bind_ok {A B} (m : Action A) (k : A -> Action B) (d : device) (a : A) :
  result (m d) = Ok a ->
  effects (bind m k d) = (effects (m d) ++ effects (k a (after (m d))))%list.
Proof. intro E. rewrite (bind_ok m k d a E). reflexivity. Qed.

Lemma total_unit (m : Action unit) (d : device) : total m -> result (m d) = Ok tt.
Proof. intro H. destruct (H d) as [[] E]. exact E. Qed.

Lemma total_bind {A B} (m : Action A) (k : A -> Action B) :
  total m -> (forall a, total (k a)) -> total (bind m k).
Proof.
  intros Hm Hk d. destruct (Hm d) as [a E].
  rewrite (result_bind_ok m k d a E). apply Hk.
Qed.

Lemma total_ret {A} (a : A) : total (ret a).
Proof. intro d. exists a. reflexivity. Qed.

Lemma total_perform (e : effect) (f : device -> device) : total (perform e f).
Proof. intro d. exists tt. reflexivity. Qed.

Lemma total_getCapabilityValue {K V} `{Capability K V} (k : K) :
  total (getCapabilityValue k).
Proof. intro d. eexists. reflexivity. Qed.

Lemma total_setCapabilityValue {K V} `{JsType V} `{Capability K V}
    (k : K) (v : option V) :
  total (setCapabilityValue k v).
Proof. intro d. exists tt. reflexivity. Qed.

Ltac total_step :=
  cbv zeta;
  first
    [ apply total_ret
    | apply total_perform
    | apply total_getCapabilityValue
    | apply total_setCapabilityValue
    | apply total_bind; [| intro]
    | match goal with
      | |- total (if ?b then _ else _) => destruct b
      end ].

Lemma checkDeviceAvailability_run (getStatus : Z -> string) (s : stats) (d : device) :
  let b := negb (String.eqb (getStatus (status_id s)) "Disconnected"
                 || String.eqb (getStatus (status_id s)) "Error") in
  checkDeviceAvailability getStatus s d
  = Run (Ok tt) (with_available b d) [if b then SetAvailable else SetUnavailable].
Proof.
  cbv zeta. unfold checkDeviceAvailability, getChargerStatusName.
  destruct (_ || _); reflexivity.
Qed.

Lemma triggerStatusChange_total (oldStatus : option string) (newStatus : string) :
  total (triggerStatusChange oldStatus newStatus).
Proof.
  unfold triggerStatusChange, driver_trigger. repeat total_step.
Qed.

Lemma whenChangedSetAndTriggerStatus_total (getStatus : Z -> string) (s : stats) :
  total (whenChangedSetAndTriggerStatus getStatus s).
Proof.
  unfold whenChangedSetAndTriggerStatus. repeat total_step.
Qed.

Lemma whenChangedSetCapabilityValue_total {K V} `{JsType V} `{Capability K V}
    (k : K) (v : option V) :
  total (whenChangedSetCapabilityValue k v).
Proof. unfold whenChangedSetCapabilityValue. repeat total_step. Qed.

Lemma whenChangedSetSessionCost_total (current : Q) (previous : option Q) (price : Q) :
  total (whenChangedSetSessionCost current previous price).
Proof. unfold whenChangedSetSessionCost. repeat total_step. Qed.

Lemma triggerStatusChange_only_triggers (oldStatus : option string)
    (newStatus : string) (d : device) :
  let r := triggerStatusChange oldStatus newStatus d in
  result r = Ok tt /\ after r = d /\ writes (effects r) = [].
Proof.
  cbv zeta. unfold triggerStatusChange, bind, driver_trigger, perform, ret.
  cbn [result after effects].
  repeat (case_if; cbn [result after effects]); repeat split.
Qed.

Lemma no_write_not_in (l : list effect) (c : string) (p n : value) :
  writes l = [] -> ~ In (SetCapabilityValue c p n) l.
Proof.
  intros W I. induction l as [|e l IH]; [exact I|].
  destruct I as [->|I]; [discriminate|].
  destruct e; cbn in W; try discriminate; auto.
Qed.

Lemma whenChangedSetAndTriggerStatus_run (getStatus : Z -> string) (s : stats)
    (d : device) :
  let oldStatus := lookup Cap.status (caps d) in
  let newStatus := getStatus (status_id s) in
  whenChangedSetAndTriggerStatus getStatus s d
  = if strict_neq oldStatus (Some newStatus)
    then Run (Ok tt) (with_caps (store Cap.status (Some newStatus) (caps d)) d)
           (SetCapabilityValue "status" (to_value oldStatus) (VStr newStatus)
            :: effects (triggerStatusChange oldStatus newStatus d))
    else Run (Ok tt) d [].
Proof.
  cbv zeta. unfold whenChangedSetAndTriggerStatus, getChargerStatusName.
  unfold bind at 1. unfold getCapabilityValue. cbn [result after effects].
  destruct (strict_neq _ _); [|reflexivity].
  unfold bind, setCapabilityValue. cbn [result after effects].
  match goal with
  | |- context [triggerStatusChange ?o ?n ?x] =>
      destruct (triggerStatusChange_only_triggers o n x) as (R & A & _);
      cbv zeta in R, A; rewrite R, A
  end.
  f_equal. cbn [app]. f_equal.
  unfold triggerStatusChange, bind, driver_trigger, perform, ret.
  cbn [result after effects].
  repeat (case_if; cbn [result after effects]); reflexivity.
Qed.

(** ** C5: a snapshot without its config block *)

#[export] Instance Transition_writes_status_only : Transition writes_status_only.
Proof.
  split.
  - intro d. repeat split. intros c [].
  - intros d d1 d2 l1 l2 (W1 & B1 & N1 & T1 & A1) (W2 & B2 & N2 & T2 & A2).
    repeat split; try congruence.
    + intros c I. rewrite writes_app in I. apply in_app_or in I.
      destruct I; auto.
    + intros k Hk. rewrite (T2 k Hk). auto.
Qed.





(** ** C6: the lifetime energy *)

Lemma historical_total_sum (id : string) (l : list session) (acc : Q) :
  fold_left (addSessionEnergy id) l acc
  = fold_left Qplus (flat_map (definedEnergyOf id) l) acc.
Proof.
  revert acc. induction l as [|s l IH]; intro acc; [reflexivity|].
  cbn [fold_left flat_map]. rewrite fold_left_app, IH.
  unfold addSessionEnergy, definedEnergyOf.
  destruct (String.eqb (charger s) id), (energy s); reflexivity.
Qed.

Lemma retrieveEnergyHistoricalTotal_listed (api : WallboxAPI) (l : list session)
    (d : device) :
  getSessionsList api = Ok {| data := Some l |} ->
  retrieveEnergyHistoricalTotal api d
  = Run (Ok (fold_left (addSessionEnergy (_id d)) l 0)) d [GetSessionsList].
Proof.
  intro E. unfold retrieveEnergyHistoricalTotal, bind, await, property, this, ret.
  cbn [result after effects]. rewrite E. reflexivity.
Qed.

Lemma whenChangedSetTotalEnergy_listed (api : WallboxAPI) (l : list session)
    (current : Q) (previous : option Q) (d : device) :
  getSessionsList api = Ok {| data := Some l |} ->
  let total := fold_left (addSessionEnergy (_id d)) l 0 in
  whenChangedSetTotalEnergy api current previous d
  = if strict_neq (current + total) (ToNumber previous + total)
    then Run (Ok tt)
           (with_caps (store Cap.meter_power (Some (total + current)) (caps d)) d)
           [GetSessionsList;
            SetCapabilityValue "meter_power"
              (to_value (lookup Cap.meter_power (caps d)))
              (VNum (total + current))]
    else Run (Ok tt) d [GetSessionsList].
Proof.
  intro E. cbv zeta. unfold whenChangedSetTotalEnergy.
  rewrite (bind_ok _ _ d _)
    by (rewrite (retrieveEnergyHistoricalTotal_listed _ _ _ E); reflexivity).
  rewrite (retrieveEnergyHistoricalTotal_listed _ _ _ E). cbn [result after effects].
  destruct (strict_neq _ _); reflexivity.
Qed.

Lemma shifted_neq (a b t : Q) :
  strict_neq (a + t) (b + t) = strict_neq a b.
Proof.
  unfold strict_neq. cbn. f_equal.
  destruct (Qeq_bool a b) eqn:E.
  - apply Qeq_bool_iff in E. apply Qeq_bool_iff. rewrite E. reflexivity.
  - destruct (Qeq_bool (a + t) (b + t)) eqn:F; [|reflexivity].
    apply Qeq_bool_iff in F. apply Qplus_inj_r in F.
    apply Qeq_bool_iff in F. congruence.
Qed.

Lemma retrieveEnergyHistoricalTotal_unlisted (api : WallboxAPI) (d : device) :
  getSessionsList api = Ok {| data := None |} ->
  retrieveEnergyHistoricalTotal api d = Run (Throw TypeError) d [GetSessionsList].
Proof.
  intro E. unfold retrieveEnergyHistoricalTotal, bind, await, property, throw.
  cbn [result after effects]. rewrite E. reflexivity.
Qed.

(** C6.  With a session list whose [data] is present, also an empty one,
    [retrieveEnergyHistoricalTotal] returns the sum, in the order of the
    list, of the [energy] of the sessions of this device that have one;
    [whenChangedSetTotalEnergy] does not throw and, when its guard holds,
    leaves in [meter_power] that sum plus the current session energy: 7
    for the sessions [A:5, B:9, A:undefined], device A and current
    energy 2.  With a session list whose [data] is missing the total is
    not taken as zero: the loop throws a TypeError, which leaves
    [retrieveEnergyHistoricalTotal] and [whenChangedSetTotalEnergy] (whose
    guard [totalEnergy !== undefined] is never reached) and then the poll
    cycle, after the capabilities that come first were written. *)
Theorem lifetime_energy_sum
    (getChargerStatus : string -> outcome stats) (sessionsList : list session)
    (d : device) (current : Q) (previous : option Q) :
  let api := {| getChargerStatus := getChargerStatus;
                getSessionsList := Ok {| data := Some sessionsList |} |} in
  let missing := {| getChargerStatus := getChargerStatus;
                    getSessionsList := Ok {| data := None |} |} in
  let total := fold_left Qplus (flat_map (definedEnergyOf (_id d)) sessionsList) 0 in
  let r := whenChangedSetTotalEnergy api current previous d in
  result (retrieveEnergyHistoricalTotal api d) = Ok total
  /\ total + current = spec_lifetimeEnergy sessionsList (_id d) current
  /\ result r = Ok tt
  /\ (strict_neq (current + total) (ToNumber previous + total) = true ->
      lookup Cap.meter_power (caps (after r))
      = Some (spec_lifetimeEnergy sessionsList (_id d) current))
  /\ lookup Cap.meter_power
       (caps (after (whenChangedSetTotalEnergy
                       (example_api (example_stats 2 2) (Some example_sessions))
                       2 None (new_device "A"))))
     = Some 7
  /\ result (retrieveEnergyHistoricalTotal
               (example_api (example_stats 2 2) (Some [])) d)
     = Ok 0
  /\ result (retrieveEnergyHistoricalTotal missing d) = Throw TypeError
  /\ whenChangedSetTotalEnergy missing current previous d
     = Run (Throw TypeError) d [GetSessionsList]
  /\ (let failed := poll example_getStatus (example_api (example_stats 2 2) None)
                      (new_device "A") in
      result failed = Throw TypeError
      /\ writes (effects failed)
         = ["status"; "locked"; "onoff"; "maximum_available_current";
            "measure_power"]
      /\ lookup Cap.meter_power (caps (after failed)) = None).
Proof.
  cbv zeta.
  set (api := {| getChargerStatus := getChargerStatus;
                 getSessionsList := Ok {| data := Some sessionsList |} |}).
  set (missing := {| getChargerStatus := getChargerStatus;
                     getSessionsList := Ok {| data := None |} |}).
  assert (E : getSessionsList api = Ok {| data := Some sessionsList |}) by reflexivity.
  assert (M : getSessionsList missing = Ok {| data := None |}) by reflexivity.
  pose proof (historical_total_sum (_id d) sessionsList 0) as S.
  repeat apply conj.
  - rewrite (retrieveEnergyHistoricalTotal_listed _ _ _ E). cbn [result].
    now rewrite S.
  - reflexivity.
  - rewrite (whenChangedSetTotalEnergy_listed _ _ _ _ _ E). cbv zeta.
    destruct (strict_neq _ _); reflexivity.
  - rewrite (whenChangedSetTotalEnergy_listed _ _ _ _ _ E). cbv zeta.
    rewrite S. intros ->. reflexivity.
  - reflexivity.
  - reflexivity.
  - rewrite (retrieveEnergyHistoricalTotal_unlisted _ _ M). reflexivity.
  - unfold whenChangedSetTotalEnergy.
    rewrite (bind_throw _ _ d TypeError)
      by (rewrite (retrieveEnergyHistoricalTotal_unlisted _ _ M); reflexivity).
    rewrite (retrieveEnergyHistoricalTotal_unlisted _ _ M). reflexivity.
  - vm_compute. reflexivity.
  - vm_compute. reflexivity.
  - vm_compute. reflexivity.
Qed.

Lemma lifetime_energy_sum_witness :
  lookup Cap.meter_power
    (caps (after (whenChangedSetTotalEnergy
                    (example_api (example_stats 2 2) (Some example_sessions))
                    2 None (new_device "A"))))
  = Some (spec_lifetimeEnergy example_sessions "A" 2).
Proof.
  apply (proj1 (proj2 (proj2 (proj2 (lifetime_energy_sum
                                       (fun _ => Ok (example_stats 2 2))
                                       example_sessions (new_device "A") 2 None))))).
  vm_compute. reflexivity.
Defined.

(** ** C7: writes happen on change *)

#[export] Instance Faithful_bool : Faithful bool.
Proof. split; reflexivity. Qed.

#[export] Instance Faithful_number : Faithful Q.
Proof. split; reflexivity. Qed.

#[export] Instance Faithful_string : Faithful string.
Proof. split; reflexivity. Qed.

Lemma nullable_to_value_eq {V} `{Faithful V} (a b : option V) :
  value_eq (to_value a) (to_value b) = strict_eq a b.
Proof.
  destruct a as [x|], b as [y|]; cbn.
  - apply to_value_eq.
  - apply null_right.
  - apply null_left.
  - reflexivity.
Qed.

Lemma strict_eq_nullable_sym {V} `{StrictEquality V} (a b : option V) :
  strict_eq a b = strict_eq b a.
Proof. apply (strict_eq_sym (V := option V)). Qed.

#[export] Instance Transition_genuine_writes : Transition genuine_writes.
Proof.
  split.
  - intros d c p n [].
  - intros d d1 d2 l1 l2 H1 H2 c p n I. apply in_app_or in I.
    destruct I; eauto.
Qed.

Lemma whenChangedSetCapabilityValue_genuine {K V} `{Faithful V} `{!StrictEquality V}
    `{!Capability K V} (k : K) (v : option V) :
  satisfies genuine_writes (whenChangedSetCapabilityValue k v).
Proof.
  intro d. unfold whenChangedSetCapabilityValue, bind, getCapabilityValue.
  cbn [result after effects].
  destruct (strict_neq v (lookup k (caps d))) eqn:E; cbn [result after effects app].
  - intros c p n [I|[]] _. injection I as _ <- <-.
    change (value_eq (to_value (lookup k (caps d))) (to_value v) = false).
    rewrite nullable_to_value_eq, strict_eq_nullable_sym.
    now apply strict_neq_true.
  - intros c p n [].
Qed.

Lemma whenChangedSetAndTriggerStatus_genuine (getStatus : Z -> string) (s : stats) :
  satisfies genuine_writes (whenChangedSetAndTriggerStatus getStatus s).
Proof.
  intro d. rewrite whenChangedSetAndTriggerStatus_run. cbv zeta.
  destruct (strict_neq _ _) eqn:E; cbn [result after effects].
  - intros c p n [I|I] _.
    + injection I as _ <- <-.
      change (value_eq (to_value (lookup Cap.status (caps d)))
                (to_value (Some (getStatus (status_id s)))) = false).
      rewrite (nullable_to_value_eq (V := string)).
      now apply strict_neq_true.
    + exfalso. revert I. apply no_write_not_in.
      apply triggerStatusChange_only_triggers.
  - intros c p n [].
Qed.

Lemma whenChangedSetSessionCost_genuine (current : Q) (previous : option Q) (price : Q) :
  satisfies genuine_writes (whenChangedSetSessionCost current previous price).
Proof.
  intro d. unfold whenChangedSetSessionCost, bind, getCapabilityValue.
  cbn [result after effects].
  destruct (strict_neq _ _) eqn:E; cbn [result after effects app].
  - intros c p n [I|[]] _. injection I as _ <- <-.
    match goal with
    | |- value_eq _ (VNum ?x) = false =>
        change (value_eq (to_value (lookup Cap.meter_session_cost (caps d)))
                  (to_value (Some x)) = false)
    end.
    rewrite (nullable_to_value_eq (V := Q)).
    now apply strict_neq_true.
  - intros c p n [].
Qed.

Lemma whenChangedSetTotalEnergy_genuine (api : WallboxAPI) (current : Q)
    (previous : option Q) :
  satisfies genuine_writes (whenChangedSetTotalEnergy api current previous).
Proof.
  unfold whenChangedSetTotalEnergy, retrieveEnergyHistoricalTotal.
  repeat satisfies_step; intros d c p n [I|[]]; try discriminate.
  injection I as <- _ _. intro N. now elim N.
Qed.

Ltac genuine_step :=
  first [ apply whenChangedSetCapabilityValue_genuine
        | apply whenChangedSetAndTriggerStatus_genuine
        | apply whenChangedSetSessionCost_genuine
        | apply whenChangedSetTotalEnergy_genuine ].

Lemma poll_genuine (getStatus : Z -> string) (api : WallboxAPI) :
  satisfies genuine_writes (poll getStatus api).
Proof.
  unfold poll, retrieveChargerStats, checkDeviceAvailability,
    whenChangedSetCapabilities.
  repeat satisfies_step_with genuine_step;
    intros d c p n [I|[]]; discriminate.
Qed.

Lemma whenChangedSetCapabilityValue_quiet {K V} `{JsType V} `{!StrictEquality V}
    `{!Capability K V} (k : K) (v : option V) (d : device) :
  strict_eq v (lookup k (caps d)) = true ->
  whenChangedSetCapabilityValue k v d = Run (Ok tt) d [].
Proof.
  intro E. unfold whenChangedSetCapabilityValue, bind, getCapabilityValue.
  cbn [result after effects]. apply strict_neq_false in E. rewrite E. reflexivity.
Qed.

(** C7, as the code behaves.  In every poll cycle a write to a
    capability other than [meter_power] happens only when the incoming
    value differs from the value held (the value the write replaces), and
    [whenChangedSetCapabilityValue] writes nothing and changes nothing
    when the new value equals the current one. *)
Theorem writes_only_on_change
    (getStatus : Z -> string) (api : WallboxAPI) (d : device) :
  (forall c previous new,
      In (SetCapabilityValue c previous new) (effects (poll getStatus api d)) ->
      c <> "meter_power" ->
      value_eq previous new = false)
  /\ (forall (k : Cap.boolean) v d',
        strict_eq v (lookup k (caps d')) = true ->
        whenChangedSetCapabilityValue k v d' = Run (Ok tt) d' [])
  /\ (forall (k : Cap.number) v d',
        strict_eq v (lookup k (caps d')) = true ->
        whenChangedSetCapabilityValue k v d' = Run (Ok tt) d' [])
  /\ (forall (k : Cap.text) v d',
        strict_eq v (lookup k (caps d')) = true ->
        whenChangedSetCapabilityValue k v d' = Run (Ok tt) d' []).
Proof.
  repeat apply conj.
  - apply (poll_genuine getStatus api d).
  - intros k v d'. apply whenChangedSetCapabilityValue_quiet.
  - intros k v d'. apply whenChangedSetCapabilityValue_quiet.
  - intros k v d'. apply whenChangedSetCapabilityValue_quiet.
Qed.

Lemma writes_only_on_change_witness :
  value_eq (VNum 2) (VNum 4) = false
  /\ whenChangedSetCapabilityValue Cap.meter_power_session (Some 4)
       (after (poll example_getStatus api_while_charging (new_device "A")))
     = Run (Ok tt) (after (poll example_getStatus api_while_charging (new_device "A")))
           [].
Proof.
  pose proof (writes_only_on_change example_getStatus api_while_charging
                (after (poll example_getStatus
                          (example_api (example_stats 2 2) (Some example_sessions))
                          (new_device "A")))) as (W & _ & N & _).
  split.
  - apply (W "meter_power_session"); [|discriminate].
    vm_compute. tauto.
  - apply N. reflexivity.
Defined.

(** The claim fails as stated for the lifetime energy: when a session of
    4 kWh ends and moves into the history, [meter_power] holds 7 and is
    written with 7 again, because the guard compares the session energies
    and not the value held. *)
Lemma lifetime_energy_rewritten_unchanged :
  let d := after (poll example_getStatus api_while_charging (new_device "A")) in
  lookup Cap.meter_power (caps d) = Some 7
  /\ In (SetCapabilityValue "meter_power" (VNum 7) (VNum 7))
        (effects (poll example_getStatus api_after_session d))
  /\ ~ genuine (SetCapabilityValue "meter_power" (VNum 7) (VNum 7)).
Proof.
  cbv zeta. split; [reflexivity|]. split.
  - vm_compute. tauto.
  - cbn. discriminate.
Qed.

(** ** Stepping through a method from a given device *)

Section satisfies_at.

Context (T : device -> device -> list effect -> Prop) `{!Transition T}.

Lemma satisfies_at_bind {A B} (m : Action A) (k : A -> Action B) (d : device) :
  satisfies_at T m d ->
  (forall a, result (m d) = Ok a -> satisfies_at T (k a) (after (m d))) ->
  satisfies_at T (bind m k) d.
Proof.
  unfold satisfies_at. intros Hm Hk. unfold bind.
  destruct (result (m d)) eqn:E; cbn [after effects].
  - eapply transition_then; [exact Hm | apply Hk; reflexivity].
  - exact Hm.
Qed.

Lemma satisfies_at_read {K V B} `{Capability K V} (key : K)
    (k : option V -> Action B) (d : device) :
  satisfies_at T (k (lookup key (caps d))) d ->
  satisfies_at T (bind (getCapabilityValue key) k) d.
Proof.
  intro Hk. apply satisfies_at_bind.
  - apply transition_stay.
  - intros a E. injection E as <-. exact Hk.
Qed.

Lemma satisfies_at_property {A B} (o : option A) (k : A -> Action B) (d : device) :
  (forall a, o = Some a -> satisfies_at T (k a) d) ->
  satisfies_at T (bind (property o) k) d.
Proof.
  intro Hk. apply satisfies_at_bind.
  - destruct o; apply transition_stay.
  - destruct o as [a'|]; intros a E; [|discriminate].
    injection E as <-. apply Hk. reflexivity.
Qed.

Lemma satisfies_at_step {B} (m : Action unit) (k : unit -> Action B) (d : device) :
  satisfies T m ->
  (forall d', satisfies_at T (k tt) d') ->
  satisfies_at T (bind m k) d.
Proof.
  intros Hm Hk. apply satisfies_at_bind; [apply Hm|]. intros [] _. apply Hk.
Qed.

End satisfies_at.

(** *** What a call of [whenChangedSetCapabilityValue] touches *)

Lemma whenChangedSetCapabilityValue_run {K V} `{JsType V} `{Capability K V}
    (k : K) (v : option V) (d : device) :
  whenChangedSetCapabilityValue k v d
  = if strict_neq v (lookup k (caps d))
    then Run (Ok tt) (with_caps (store k v (caps d)) d)
           [SetCapabilityValue (name k) (to_value (lookup k (caps d))) (to_value v)]
    else Run (Ok tt) d [].
Proof.
  unfold whenChangedSetCapabilityValue, bind, getCapabilityValue, setCapabilityValue.
  cbn [result after effects]. destruct (strict_neq _ _); reflexivity.
Qed.

Lemma whenChangedSetCapabilityValue_untouched {K V K' V'} `{JsType V}
    `{Capability K V} `{Capability K' V'} (k : K) (v : option V) (k' : K')
    (d : device) :
  independent k k' ->
  lookup k' (caps (after (whenChangedSetCapabilityValue k v d))) = lookup k' (caps d).
Proof.
  intro I. rewrite whenChangedSetCapabilityValue_run.
  destruct (strict_neq _ _); cbn [after caps with_caps]; [apply I | reflexivity].
Qed.

Lemma whenChangedSetCapabilityValue_writes {K V} `{JsType V} `{Capability K V}
    (k : K) (v : option V) (d : device) (c : string) :
  In c (writes (effects (whenChangedSetCapabilityValue k v d))) -> c = name k.
Proof.
  rewrite whenChangedSetCapabilityValue_run.
  destruct (strict_neq _ _); cbn; [intros [<-|[]]; reflexivity | intros []].
Qed.

#[export] Instance Stored_boolean : Stored Cap.boolean bool.
Proof. intros [] x c; reflexivity. Qed.

#[export] Instance Stored_number : Stored Cap.number Q.
Proof. intros [] x c; reflexivity. Qed.

#[export] Instance Stored_text : Stored Cap.text string.
Proof. intros [] x c; reflexivity. Qed.

Lemma whenChangedSetCapabilityValue_synced {K V} `{JsType V} `{!StrictEquality V}
    `{Capability K V} `{!Stored K V} (k : K) (v : option V) (d : device) :
  strict_eq v (lookup k (caps (after (whenChangedSetCapabilityValue k v d)))) = true.
Proof.
  rewrite whenChangedSetCapabilityValue_run.
  destruct (strict_neq _ _) eqn:E; cbn [after caps with_caps].
  - rewrite lookup_store. apply (strict_eq_refl (V := option V)).
  - now apply strict_neq_false.
Qed.

(** *** The lifetime energy step, when the session list is not there *)

Lemma whenChangedSetTotalEnergy_cases (api : WallboxAPI) (current : Q)
    (previous : option Q) (d : device) :
  (exists e, whenChangedSetTotalEnergy api current previous d
             = Run (Throw e) d [GetSessionsList])
  \/ (exists l, getSessionsList api = Ok {| data := Some l |}).
Proof.
  destruct (getSessionsList api) as [[[l|]]|e] eqn:E.
  - right. exists l. reflexivity.
  - left. exists TypeError.
    unfold whenChangedSetTotalEnergy, retrieveEnergyHistoricalTotal, bind, await,
      property, throw. cbn [result after effects]. rewrite E. reflexivity.
  - left. exists e.
    unfold whenChangedSetTotalEnergy, retrieveEnergyHistoricalTotal, bind, await.
    cbn [result after effects]. rewrite E. reflexivity.
Qed.

Lemma whenChangedSetSessionCost_run (current : Q) (previous : option Q) (price : Q)
    (d : device) :
  let oldSessionCost := lookup Cap.meter_session_cost (caps d) in
  let cost := sessionCost current previous oldSessionCost price in
  whenChangedSetSessionCost current previous price d
  = if strict_neq oldSessionCost (Some cost)
    then Run (Ok tt)
           (with_caps (store Cap.meter_session_cost (Some cost) (caps d)) d)
           [SetCapabilityValue "meter_session_cost" (to_value oldSessionCost)
              (VNum cost)]
    else Run (Ok tt) d [].
Proof.
  cbv zeta.
  unfold whenChangedSetSessionCost, bind, getCapabilityValue, setCapabilityValue.
  cbn [result after effects]. destruct (strict_neq _ _); reflexivity.
Qed.

(** Walking down a chain of calls, [known] settling each call. *)
Ltac walk known :=
  repeat match goal with
    | |- satisfies_at _ (bind (getCapabilityValue _) _) _ =>
        apply satisfies_at_read; [exact _ |]
    | |- satisfies_at _ (bind (property _) _) _ =>
        apply satisfies_at_property; [exact _ | intros ? ?]
    | |- satisfies_at _ (bind _ _) _ =>
        apply satisfies_at_bind; [exact _ | solve [known] | intros [] _]
    | |- satisfies_at _ _ _ => solve [known]
    end.

(** ** C10: the lifetime energy is skipped while the session energy stands *)

#[export] Instance Transition_skips_lifetime (current : Q) :
  Transition (skips_lifetime current).
Proof.
  split.
  - intros d E. repeat split; [exact E | intros []].
  - intros d d1 d2 l1 l2 H1 H2 E.
    destruct (H1 E) as (E1 & W1 & M1). destruct (H2 E1) as (E2 & W2 & M2).
    repeat split; [exact E2 | | congruence].
    rewrite writes_app. intro I. apply in_app_or in I. tauto.
Qed.

Lemma skips_lifetime_frame {A} (current : Q) (m : Action A) (d : device) :
  lookup Cap.meter_power_session (caps (after (m d)))
  = lookup Cap.meter_power_session (caps d) ->
  lookup Cap.meter_power (caps (after (m d))) = lookup Cap.meter_power (caps d) ->
  ~ In "meter_power" (writes (effects (m d))) ->
  satisfies_at (skips_lifetime current) m d.
Proof.
  intros S M W E. rewrite S. repeat split; assumption.
Qed.

Lemma skips_lifetime_other {K V} `{JsType V} `{Capability K V}
    (current : Q) (k : K) (v : option V) (d : device) :
  independent k Cap.meter_power_session ->
  independent k Cap.meter_power ->
  name k <> "meter_power" ->
  satisfies_at (skips_lifetime current) (whenChangedSetCapabilityValue k v) d.
Proof.
  intros I1 I2 N. apply skips_lifetime_frame.
  - now apply whenChangedSetCapabilityValue_untouched.
  - now apply whenChangedSetCapabilityValue_untouched.
  - intro W. apply whenChangedSetCapabilityValue_writes in W. congruence.
Qed.

Lemma skips_lifetime_session_energy (current : Q) (d : device) :
  satisfies_at (skips_lifetime current)
    (whenChangedSetCapabilityValue Cap.meter_power_session (Some current)) d.
Proof.
  intros _. repeat split.
  - rewrite (strict_eq_sym (V := option Q)).
    apply whenChangedSetCapabilityValue_synced.
  - intro W. apply whenChangedSetCapabilityValue_writes in W. discriminate.
  - apply whenChangedSetCapabilityValue_untouched. intros x c. reflexivity.
Qed.

Lemma skips_lifetime_availability (getStatus : Z -> string) (current : Q) (s : stats)
    (d : device) :
  satisfies_at (skips_lifetime current) (checkDeviceAvailability getStatus s) d.
Proof.
  apply skips_lifetime_frame; rewrite checkDeviceAvailability_run; cbv zeta;
    try reflexivity.
  cbn [effects]. destruct (negb _); intros [].
Qed.

Lemma skips_lifetime_status (getStatus : Z -> string) (current : Q) (s : stats)
    (d : device) :
  satisfies_at (skips_lifetime current) (whenChangedSetAndTriggerStatus getStatus s) d.
Proof.
  destruct (triggerStatusChange_only_triggers
              (lookup Cap.status (caps d)) (getStatus (status_id s)) d)
    as (_ & _ & W).
  cbv zeta in W.
  apply skips_lifetime_frame; rewrite whenChangedSetAndTriggerStatus_run; cbv zeta;
    destruct (strict_neq _ _); cbn [result after effects writes];
    try reflexivity; rewrite ?W; cbn; intuition discriminate.
Qed.

Lemma skips_lifetime_cost (current cur : Q) (previous : option Q) (price : Q)
    (d : device) :
  satisfies_at (skips_lifetime current) (whenChangedSetSessionCost cur previous price) d.
Proof.
  apply skips_lifetime_frame; rewrite whenChangedSetSessionCost_run; cbv zeta;
    destruct (strict_neq _ _); cbn [result after effects writes];
    try reflexivity; cbn; intuition discriminate.
Qed.

Lemma skips_lifetime_total (api : WallboxAPI) (current : Q) (d : device) :
  satisfies_at (skips_lifetime current)
    (whenChangedSetTotalEnergy api current
       (lookup Cap.meter_power_session (caps d))) d.
Proof.
  intro E.
  destruct (whenChangedSetTotalEnergy_cases api current
              (lookup Cap.meter_power_session (caps d)) d) as [[e X]|[l L]].
  - rewrite X. cbn [after effects writes]. repeat split; [exact E | intros []].
  - rewrite (whenChangedSetTotalEnergy_listed _ _ _ _ _ L). cbv zeta.
    rewrite shifted_neq.
    assert (F : strict_neq current
                  (ToNumber (lookup Cap.meter_power_session (caps d))) = false).
    { destruct (lookup Cap.meter_power_session (caps d)) as [e|]; [|discriminate].
      apply strict_neq_false. apply Qeq_bool_iff. apply Qeq_bool_iff in E.
      now symmetry. }
    rewrite F. cbn [after effects writes]. repeat split; [exact E | intros []].
Qed.

Ltac skips_lifetime_step :=
  idtac;
  match goal with
  | |- satisfies_at _ (checkDeviceAvailability _ _) _ =>
      apply skips_lifetime_availability
  | |- satisfies_at _ (whenChangedSetAndTriggerStatus _ _) _ =>
      apply skips_lifetime_status
  | |- satisfies_at _ (whenChangedSetTotalEnergy _ _ _) _ =>
      apply skips_lifetime_total
  | |- satisfies_at _ (whenChangedSetSessionCost _ _ _) _ =>
      apply skips_lifetime_cost
  | |- satisfies_at _ (whenChangedSetCapabilityValue Cap.meter_power_session _) _ =>
      apply skips_lifetime_session_energy
  | |- satisfies_at _ (whenChangedSetCapabilityValue _ _) _ =>
      apply skips_lifetime_other;
      [intros ? ?; reflexivity | intros ? ?; reflexivity | discriminate]
  end.

(** C10.  In a poll cycle whose snapshot carries the session energy that
    [meter_power_session] already holds, [meter_power] is not written and
    keeps its value, whatever the session list says. *)
Theorem unchanged_session_energy_skips_lifetime
    (getStatus : Z -> string) (api : WallboxAPI) (d : device) (s : stats) :
  getChargerStatus api (_id d) = Ok s ->
  strict_eq (lookup Cap.meter_power_session (caps d)) (Some (added_energy s)) = true ->
  let r := poll getStatus api d in
  ~ In "meter_power" (writes (effects r))
  /\ lookup Cap.meter_power (caps (after r)) = lookup Cap.meter_power (caps d).
Proof.
  intros F E. cbv zeta. rewrite (poll_fetched _ _ _ _ F). cbn [after effects writes].
  assert (X : satisfies_at (skips_lifetime (added_energy s))
                (reconcile getStatus api s) d).
  { unfold reconcile, whenChangedSetCapabilities. walk skips_lifetime_step. }
  destruct (X E) as (_ & W & M). split; assumption.
Qed.

Lemma unchanged_session_energy_skips_lifetime_witness :
  let d := after (poll example_getStatus api_while_charging (new_device "A")) in
  let api := example_api (example_stats 2 4)
               (Some [ {| charger := "A"; energy := Some 10 |} ]) in
  let r := poll example_getStatus api d in
  ~ In "meter_power" (writes (effects r))
  /\ lookup Cap.meter_power (caps (after r)) = Some 7.
Proof.
  cbv zeta.
  destruct (unchanged_session_energy_skips_lifetime example_getStatus
              (example_api (example_stats 2 4)
                 (Some [ {| charger := "A"; energy := Some 10 |} ]))
              (after (poll example_getStatus api_while_charging (new_device "A")))
              (example_stats 2 4) eq_refl eq_refl) as [W M].
  split; [exact W|]. rewrite M. reflexivity.
Defined.

(** ** C8: the order of the dependent writes *)

Lemma is_subsequence_nil (m : list string) : is_subsequence [] m = true.
Proof. destruct m; reflexivity. Qed.

Lemma is_subsequence_tail_cons (m : list string) :
  (forall x l, is_subsequence (x :: l) m = true -> is_subsequence l m = true)
  /\ (forall l y, is_subsequence l m = true -> is_subsequence l (y :: m) = true).
Proof.
  induction m as [|h m [IHt IHw]].
  - split; [discriminate|]. intros [|x l] y H; [reflexivity | discriminate].
  - assert (T : forall x l, is_subsequence (x :: l) (h :: m) = true ->
                          is_subsequence l (h :: m) = true).
    { intros x l H. cbn in H. apply IHw.
      destruct (String.eqb x h); [exact H | exact (IHt _ _ H)]. }
    split; [exact T|].
    intros [|x l] y H; [reflexivity|].
    cbn [is_subsequence]. destruct (String.eqb x y); [exact (T _ _ H) | exact H].
Qed.

Lemma is_subsequence_app (x y a b : list string) :
  is_subsequence x a = true -> is_subsequence y b = true ->
  is_subsequence (x ++ y) (a ++ b) = true.
Proof.
  revert x. induction a as [|h a IH]; intros x Hx Hy.
  - destruct x; [exact Hy | discriminate].
  - destruct x as [|x0 x].
    + cbn [app]. apply (proj2 (is_subsequence_tail_cons _)).
      apply (IH [] (is_subsequence_nil a) Hy).
    + cbn [app is_subsequence] in *.
      destruct (String.eqb x0 h); [exact (IH _ Hx Hy)|].
      exact (IH (x0 :: x) Hx Hy).
Qed.

Lemma dependent_writes_app (l1 l2 : list effect) :
  dependent_writes (l1 ++ l2) = (dependent_writes l1 ++ dependent_writes l2)%list.
Proof. unfold dependent_writes. rewrite writes_app. apply filter_app. Qed.

Lemma writes_within_bind {A B} (a1 a2 : list string) (m : Action A)
    (k : A -> Action B) :
  writes_within a1 m -> (forall a, writes_within a2 (k a)) ->
  writes_within (a1 ++ a2) (bind m k).
Proof.
  intros Hm Hk d. unfold bind. destruct (result (m d)) eqn:E; cbn [effects].
  - rewrite dependent_writes_app. apply is_subsequence_app; [apply Hm | apply Hk].
  - rewrite <- (app_nil_r (dependent_writes _)).
    apply is_subsequence_app; [apply Hm | apply is_subsequence_nil].
Qed.

Lemma writes_within_quiet {A} (m : Action A) :
  (forall d, writes (effects (m d)) = []) -> writes_within [] m.
Proof. intros H d. unfold dependent_writes. rewrite H. reflexivity. Qed.

Lemma writes_within_differ {K V} `{JsType V} `{Capability K V} (k : K) (v : option V) :
  writes_within (filter dependent [name k]) (whenChangedSetCapabilityValue k v).
Proof.
  intro d. rewrite whenChangedSetCapabilityValue_run. unfold dependent_writes.
  destruct (strict_neq _ _); cbn [effects writes filter].
  - destruct (dependent (name k)); cbn; rewrite ?String.eqb_refl; reflexivity.
  - apply is_subsequence_nil.
Qed.

Lemma writes_within_status (getStatus : Z -> string) (s : stats) :
  writes_within [] (whenChangedSetAndTriggerStatus getStatus s).
Proof.
  intro d. rewrite whenChangedSetAndTriggerStatus_run. cbv zeta.
  destruct (triggerStatusChange_only_triggers
              (lookup Cap.status (caps d)) (getStatus (status_id s)) d)
    as (_ & _ & W).
  cbv zeta in W. unfold dependent_writes.
  destruct (strict_neq _ _); cbn [effects writes]; rewrite ?W; reflexivity.
Qed.

Lemma writes_within_total (api : WallboxAPI) (current : Q) (previous : option Q) :
  writes_within ["meter_power"] (whenChangedSetTotalEnergy api current previous).
Proof.
  intro d.
  destruct (whenChangedSetTotalEnergy_cases api current previous d) as [[e X]|[l L]].
  - rewrite X. reflexivity.
  - rewrite (whenChangedSetTotalEnergy_listed _ _ _ _ _ L). cbv zeta.
    destruct (strict_neq _ _); reflexivity.
Qed.

Lemma writes_within_cost (current : Q) (previous : option Q) (price : Q) :
  writes_within ["meter_session_cost"]
    (whenChangedSetSessionCost current previous price).
Proof.
  intro d. rewrite whenChangedSetSessionCost_run. cbv zeta.
  destruct (strict_neq _ _); reflexivity.
Qed.

Ltac within_leaf :=
  idtac;
  match goal with
  | |- writes_within _ (whenChangedSetCapabilityValue ?k ?v) =>
      exact (writes_within_differ k v)
  | |- writes_within _ (whenChangedSetAndTriggerStatus _ _) =>
      apply writes_within_status
  | |- writes_within _ (whenChangedSetTotalEnergy _ _ _) =>
      apply writes_within_total
  | |- writes_within _ (whenChangedSetSessionCost _ _ _) =>
      apply writes_within_cost
  | |- writes_within _ (checkDeviceAvailability _ _) =>
      apply writes_within_quiet; intro;
      rewrite checkDeviceAvailability_run; cbv zeta; cbn [effects];
      destruct (negb _); reflexivity
  | |- writes_within _ (property ?o) =>
      apply writes_within_quiet; intro; destruct o; reflexivity
  | |- writes_within _ _ => apply writes_within_quiet; intro; reflexivity
  end.

Ltac within_walk :=
  repeat match goal with
    | |- writes_within ?a (bind (whenChangedSetTotalEnergy _ _ _) _) =>
        apply (writes_within_bind ["meter_power"]
                 ["meter_session_cost"; "meter_power_session"]);
        [within_leaf | intro]
    | |- writes_within ?a (bind (whenChangedSetSessionCost _ _ _) _) =>
        apply (writes_within_bind ["meter_session_cost"] ["meter_power_session"]);
        [within_leaf | intro]
    | |- writes_within ?a
           (bind (whenChangedSetCapabilityValue Cap.meter_power_session _) _) =>
        apply (writes_within_bind ["meter_power_session"] []);
        [within_leaf | intro]
    | |- writes_within ?a (bind _ _) =>
        apply (writes_within_bind [] a); [within_leaf | intro]
    | |- writes_within _ _ => within_leaf
    end.

Lemma writes_within_capabilities (getStatus : Z -> string) (api : WallboxAPI)
    (s : stats) :
  writes_within ["meter_power"; "meter_session_cost"; "meter_power_session"]
    (reconcile getStatus api s).
Proof.
  unfold reconcile, whenChangedSetCapabilities. within_walk.
Qed.

#[export] Instance Transition_no_cost_write : Transition no_cost_write.
Proof.
  split.
  - intros d [].
  - intros d d1 d2 l1 l2 H1 H2 I. rewrite writes_app in I.
    apply in_app_or in I. destruct I; [apply H1 | apply H2]; assumption.
Qed.

Lemma write_in_writes (l : list effect) (c : string) (p v : value) :
  In (SetCapabilityValue c p v) l -> In c (writes l).
Proof.
  induction l as [|e l IH]; [intros []|].
  intros [->|I]; [left; reflexivity|].
  destruct e; cbn [writes]; try (right); auto.
Qed.

Section prices.

Context (previous previousCost : option Q) (current price : Q).

Lemma prices_frame_bind {A B} (m : Action A) (k : A -> Action B) :
  (forall d, keeps_session d (after (m d)) (effects (m d))) ->
  (forall a, prices previous previousCost current price (k a)) ->
  prices previous previousCost current price (bind m k).
Proof.
  intros Hm Hk d E1 E2 p v I. destruct (Hm d) as (F1 & F2 & W).
  unfold bind in I. destruct (result (m d)) eqn:R; cbn [effects] in I.
  - apply in_app_or in I. destruct I as [I|I].
    + exfalso. apply W. exact (write_in_writes _ _ _ _ I).
    + apply (Hk a (after (m d)) (eq_trans F1 E1) (eq_trans F2 E2) p v I).
  - exfalso. apply W. exact (write_in_writes _ _ _ _ I).
Qed.

Lemma prices_read {B} (k : option Q -> Action B) :
  prices previous previousCost current price (k previous) ->
  prices previous previousCost current price
    (bind (getCapabilityValue Cap.meter_power_session) k).
Proof.
  intros Hk d E1 E2 p v I. unfold bind, getCapabilityValue in I.
  cbn [result after effects app] in I. rewrite E1 in I.
  exact (Hk d E1 E2 p v I).
Qed.

Lemma prices_property {A B} (o : option A) (k : A -> Action B) :
  (forall a, o = Some a -> prices previous previousCost current price (k a)) ->
  prices previous previousCost current price (bind (property o) k).
Proof.
  intros Hk d E1 E2 p v I. destruct o as [a|]; [|destruct I].
  exact (Hk a eq_refl d E1 E2 p v I).
Qed.

Lemma prices_cost {B} (k : unit -> Action B) :
  (forall a, satisfies no_cost_write (k a)) ->
  prices previous previousCost current price
    (bind (whenChangedSetSessionCost current previous price) k).
Proof.
  intros Hk d E1 E2 p v I.
  rewrite (effects_bind_ok _ _ d tt) in I
    by (apply total_unit, whenChangedSetSessionCost_total).
  apply in_app_or in I. destruct I as [I|I].
  - rewrite whenChangedSetSessionCost_run in I. cbv zeta in I. rewrite E2 in I.
    destruct (strict_neq _ _); cbn [effects] in I; [|destruct I].
    destruct I as [I|[]]. injection I as _ <-. reflexivity.
  - exfalso. exact (Hk tt _ (write_in_writes _ _ _ _ I)).
Qed.

End prices.

Lemma keeps_session_differ {K V} `{JsType V} `{Capability K V} (k : K)
    (v : option V) (d : device) :
  independent k Cap.meter_power_session ->
  independent k Cap.meter_session_cost ->
  name k <> "meter_session_cost" ->
  keeps_session d (after (whenChangedSetCapabilityValue k v d))
    (effects (whenChangedSetCapabilityValue k v d)).
Proof.
  intros I1 I2 N. repeat split.
  - now apply whenChangedSetCapabilityValue_untouched.
  - now apply whenChangedSetCapabilityValue_untouched.
  - intro W. apply whenChangedSetCapabilityValue_writes in W. congruence.
Qed.

Lemma keeps_session_availability (getStatus : Z -> string) (s : stats) (d : device) :
  keeps_session d (after (checkDeviceAvailability getStatus s d))
    (effects (checkDeviceAvailability getStatus s d)).
Proof.
  rewrite checkDeviceAvailability_run. cbv zeta. repeat split.
  cbn [effects]. destruct (negb _); intros [].
Qed.

Lemma keeps_session_status (getStatus : Z -> string) (s : stats) (d : device) :
  keeps_session d (after (whenChangedSetAndTriggerStatus getStatus s d))
    (effects (whenChangedSetAndTriggerStatus getStatus s d)).
Proof.
  destruct (triggerStatusChange_only_triggers
              (lookup Cap.status (caps d)) (getStatus (status_id s)) d)
    as (_ & _ & W).
  cbv zeta in W. unfold keeps_session.
  rewrite whenChangedSetAndTriggerStatus_run. cbv zeta.
  destruct (strict_neq _ _); cbn [result after effects writes]; rewrite ?W;
    repeat split; cbn; intuition discriminate.
Qed.

Lemma keeps_session_total (api : WallboxAPI) (current : Q) (previous : option Q)
    (d : device) :
  keeps_session d (after (whenChangedSetTotalEnergy api current previous d))
    (effects (whenChangedSetTotalEnergy api current previous d)).
Proof.
  destruct (whenChangedSetTotalEnergy_cases api current previous d) as [[e X]|[l L]].
  - rewrite X. repeat split. intros [].
  - rewrite (whenChangedSetTotalEnergy_listed _ _ _ _ _ L). cbv zeta.
    destruct (strict_neq _ _); repeat split; cbn; intuition discriminate.
Qed.

Lemma no_cost_write_differ {K V} `{JsType V} `{Capability K V} (k : K)
    (v : option V) :
  name k <> "meter_session_cost" ->
  satisfies no_cost_write (whenChangedSetCapabilityValue k v).
Proof.
  intros N d W. apply whenChangedSetCapabilityValue_writes in W. congruence.
Qed.

Ltac no_cost_write_leaf :=
  idtac;
  match goal with
  | |- satisfies _ (whenChangedSetCapabilityValue _ _) =>
      apply no_cost_write_differ; discriminate
  end.

Ltac prices_walk Hc :=
  repeat match goal with
    | |- prices _ _ _ _ (bind (getCapabilityValue Cap.meter_power_session) _) =>
        apply prices_read
    | |- prices _ _ _ _ (bind (property _) _) =>
        let a := fresh "a" in
        let Ha := fresh "Ha" in
        apply prices_property; intros a Ha;
        try (rewrite Hc in Ha; injection Ha as <-)
    | |- prices _ _ _ _ (bind (whenChangedSetSessionCost _ _ _) _) =>
        apply prices_cost; intros [];
        repeat satisfies_step_with no_cost_write_leaf
    | |- prices _ _ _ _ (bind (checkDeviceAvailability _ _) _) =>
        apply prices_frame_bind;
        [intro; apply keeps_session_availability | intros []]
    | |- prices _ _ _ _ (bind (whenChangedSetAndTriggerStatus _ _) _) =>
        apply prices_frame_bind; [intro; apply keeps_session_status | intros []]
    | |- prices _ _ _ _ (bind (whenChangedSetTotalEnergy _ _ _) _) =>
        apply prices_frame_bind; [intro; apply keeps_session_total | intros []]
    | |- prices _ _ _ _ (bind (whenChangedSetCapabilityValue _ _) _) =>
        apply prices_frame_bind;
        [intro; apply keeps_session_differ;
         [intros ? ?; reflexivity | intros ? ?; reflexivity | discriminate]
        | intros []]
    end.

Lemma reconcile_prices (getStatus : Z -> string) (api : WallboxAPI) (s : stats)
    (c : config) (previous previousCost : option Q) :
  config_data s = Some c ->
  prices previous previousCost (added_energy s) (energy_price c)
    (reconcile getStatus api s).
Proof.
  intro Hc. unfold reconcile, whenChangedSetCapabilities. prices_walk Hc.
Qed.

(** C8, as the code behaves.  In every poll cycle the writes to the three
    dependent capabilities come in the order [meter_power] (lifetime
    energy), [meter_session_cost], [meter_power_session], each at most
    once; and the session cost written is computed from the session energy
    and the session cost held when the cycle starts, that is, before
    [meter_power_session] is overwritten. *)
Theorem dependent_observables_order
    (getStatus : Z -> string) (api : WallboxAPI) (d : device) :
  let r := poll getStatus api d in
  is_subsequence (dependent_writes (effects r))
    ["meter_power"; "meter_session_cost"; "meter_power_session"] = true
  /\ (forall s c p v,
        getChargerStatus api (_id d) = Ok s ->
        config_data s = Some c ->
        In (SetCapabilityValue "meter_session_cost" p v) (effects r) ->
        v = VNum (sessionCost (added_energy s)
                    (lookup Cap.meter_power_session (caps d))
                    (lookup Cap.meter_session_cost (caps d))
                    (energy_price c))).
Proof.
  cbv zeta. split.
  - destruct (getChargerStatus api (_id d)) as [s|e] eqn:F.
    + rewrite (poll_fetched _ _ _ _ F). cbn [effects].
      apply (writes_within_capabilities getStatus api s d).
    + rewrite (poll_failed _ _ _ _ F). reflexivity.
  - intros s c p v F Hc I. rewrite (poll_fetched _ _ _ _ F) in I.
    cbn [effects] in I. destruct I as [I|I]; [discriminate|].
    exact (reconcile_prices getStatus api s c _ _ Hc d eq_refl eq_refl p v I).
Qed.

Lemma dependent_observables_order_witness :
  let d := after (poll example_getStatus api_while_charging (new_device "A")) in
  let api := example_api (example_stats 2 6) (Some example_sessions) in
  In (SetCapabilityValue "meter_session_cost" (VNum (4 # 4))
        (VNum ((4 # 4) + (6 - 4) * (1 # 4))))
     (effects (poll example_getStatus api d))
  /\ VNum ((4 # 4) + (6 - 4) * (1 # 4))
     = VNum (sessionCost 6 (Some 4) (Some (4 # 4)) (1 # 4)).
Proof.
  cbv zeta.
  assert (I : In (SetCapabilityValue "meter_session_cost" (VNum (4 # 4))
                    (VNum ((4 # 4) + (6 - 4) * (1 # 4))))
                 (effects (poll example_getStatus
                             (example_api (example_stats 2 6) (Some example_sessions))
                             (after (poll example_getStatus api_while_charging
                                       (new_device "A")))))).
  { vm_compute. tauto. }
  split; [exact I|].
  exact (proj2 (dependent_observables_order example_getStatus
                  (example_api (example_stats 2 6) (Some example_sessions))
                  (after (poll example_getStatus api_while_charging (new_device "A"))))
           (example_stats 2 6) example_config _ _ eq_refl eq_refl I).
Defined.

(** The claim fails as stated: on the first poll of a device all three
    dependent capabilities are written, the lifetime energy first and the
    session energy last, which is the reverse of the order claimed. *)
Lemma dependent_writes_lifetime_first :
  let r := poll example_getStatus
             (example_api (example_stats 2 2) (Some example_sessions))
             (new_device "A") in
  dependent_writes (effects r)
  = ["meter_power"; "meter_session_cost"; "meter_power_session"]
  /\ dependent_writes (effects r)
     <> ["meter_power_session"; "meter_session_cost"; "meter_power"].
Proof. vm_compute. split; [reflexivity | discriminate]. Qed.

(** ** C3: a second poll with the same snapshot

    The first poll leaves every capability it got to equal to the value
    the snapshot gives it; a second poll from there finds nothing to
    write. *)

(** *** What the first poll establishes *)

#[export] Instance Transition_keeps {K V} `{Capability K V} (k : K) :
  Transition (keeps k).
Proof.
  split.
  - intro d. reflexivity.
  - intros d d1 d2 l1 l2 H1 H2. unfold keeps in *. congruence.
Qed.

Lemma keeps_differ {K V K' V'} `{JsType V'} `{Capability K V} `{Capability K' V'}
    (k : K) (k' : K') (v' : option V') :
  independent k' k -> satisfies (keeps k) (whenChangedSetCapabilityValue k' v').
Proof. intros I d. now apply whenChangedSetCapabilityValue_untouched. Qed.

Lemma keeps_availability {K V} `{Capability K V} (k : K) (getStatus : Z -> string)
    (s : stats) :
  satisfies (keeps k) (checkDeviceAvailability getStatus s).
Proof. intro d. rewrite checkDeviceAvailability_run. reflexivity. Qed.

Lemma keeps_status {K V} `{Capability K V} (k : K) (getStatus : Z -> string)
    (s : stats) :
  independent Cap.status k ->
  satisfies (keeps k) (whenChangedSetAndTriggerStatus getStatus s).
Proof.
  intros I d. unfold keeps. rewrite whenChangedSetAndTriggerStatus_run. cbv zeta.
  destruct (strict_neq _ _); cbn [after caps with_caps]; [apply I | reflexivity].
Qed.

Lemma keeps_total {K V} `{Capability K V} (k : K) (api : WallboxAPI) (current : Q)
    (previous : option Q) :
  independent Cap.meter_power k ->
  satisfies (keeps k) (whenChangedSetTotalEnergy api current previous).
Proof.
  intros I d. unfold keeps.
  destruct (whenChangedSetTotalEnergy_cases api current previous d) as [[e X]|[l L]].
  - rewrite X. reflexivity.
  - rewrite (whenChangedSetTotalEnergy_listed _ _ _ _ _ L). cbv zeta.
    destruct (strict_neq _ _); cbn [after caps with_caps]; [apply I | reflexivity].
Qed.

Lemma keeps_cost {K V} `{Capability K V} (k : K) (current : Q) (previous : option Q)
    (price : Q) :
  independent Cap.meter_session_cost k ->
  satisfies (keeps k) (whenChangedSetSessionCost current previous price).
Proof.
  intros I d. unfold keeps. rewrite whenChangedSetSessionCost_run. cbv zeta.
  destruct (strict_neq _ _); cbn [after caps with_caps]; [apply I | reflexivity].
Qed.

Ltac keeps_leaf :=
  idtac;
  match goal with
  | |- satisfies _ (whenChangedSetCapabilityValue _ _) =>
      apply keeps_differ; intros ? ?; reflexivity
  | |- satisfies _ (checkDeviceAvailability _ _) => apply keeps_availability
  | |- satisfies _ (whenChangedSetAndTriggerStatus _ _) =>
      apply keeps_status; intros ? ?; reflexivity
  | |- satisfies _ (whenChangedSetTotalEnergy _ _ _) =>
      apply keeps_total; intros ? ?; reflexivity
  | |- satisfies _ (whenChangedSetSessionCost _ _ _) =>
      apply keeps_cost; intros ? ?; reflexivity
  end.

Section reaches.

Context {K V : Type} `{Capability K V} (k : K) (P : option V -> Prop).

Lemma reaches_here {A B} (m : Action A) (f : A -> Action B) :
  reaches k P m -> (forall a, satisfies (keeps k) (f a)) -> reaches k P (bind m f).
Proof.
  intros Hm Hf d. unfold bind. destruct (result (m d)) eqn:E; cbn [after].
  - rewrite (Hf a (after (m d))). apply Hm.
  - apply Hm.
Qed.

Lemma reaches_later {A B} (m : Action A) (f : A -> Action B) :
  total m -> (forall a, reaches k P (f a)) -> reaches k P (bind m f).
Proof.
  intros Hm Hf d. destruct (Hm d) as [a E]. rewrite (after_bind_ok m f d a E).
  apply Hf.
Qed.

Lemma reaches_property {A B} (o : option A) (a : A) (f : A -> Action B) :
  o = Some a -> reaches k P (f a) -> reaches k P (bind (property o) f).
Proof. intros -> Hf d. apply Hf. Qed.

End reaches.

Lemma checkDeviceAvailability_total (getStatus : Z -> string) (s : stats) :
  total (checkDeviceAvailability getStatus s).
Proof. intro d. rewrite checkDeviceAvailability_run. exists tt. reflexivity. Qed.

Lemma whenChangedSetTotalEnergy_total (api : WallboxAPI) (l : list session)
    (current : Q) (previous : option Q) :
  getSessionsList api = Ok {| data := Some l |} ->
  total (whenChangedSetTotalEnergy api current previous).
Proof.
  intros L d. rewrite (whenChangedSetTotalEnergy_listed _ _ _ _ _ L). cbv zeta.
  exists tt. destruct (strict_neq _ _); reflexivity.
Qed.

(** What each step leaves in the capability it is about. *)

Lemma status_reached (getStatus : Z -> string) (s : stats) :
  reaches Cap.status
    (fun held => strict_eq held (Some (getStatus (status_id s))) = true)
    (whenChangedSetAndTriggerStatus getStatus s).
Proof.
  intro d. rewrite whenChangedSetAndTriggerStatus_run. cbv zeta.
  destruct (strict_neq _ _) eqn:E; cbn [after caps with_caps].
  - cbn. apply String.eqb_refl.
  - now apply strict_neq_false.
Qed.

Lemma value_reached {K V} `{JsType V} `{!StrictEquality V} `{Capability K V}
    `{!Stored K V} (k : K) (v : option V) :
  reaches k (fun held => strict_eq v held = true) (whenChangedSetCapabilityValue k v).
Proof. intro d. apply whenChangedSetCapabilityValue_synced. Qed.

Lemma cost_reached (current : Q) (previous : option Q) (price : Q) :
  reaches Cap.meter_session_cost (is_cost current price)
    (whenChangedSetSessionCost current previous price).
Proof.
  intro d. exists previous, (lookup Cap.meter_session_cost (caps d)).
  rewrite whenChangedSetSessionCost_run. cbv zeta.
  destruct (strict_neq _ _) eqn:E; cbn [after caps with_caps].
  - cbn. apply Qeq_bool_refl.
  - now apply strict_neq_false.
Qed.

Ltac total_leaf :=
  idtac;
  match goal with
  | |- total (checkDeviceAvailability _ _) => apply checkDeviceAvailability_total
  | |- total (whenChangedSetAndTriggerStatus _ _) =>
      apply whenChangedSetAndTriggerStatus_total
  | |- total (whenChangedSetCapabilityValue _ _) =>
      apply whenChangedSetCapabilityValue_total
  | |- total (whenChangedSetSessionCost _ _ _) =>
      apply whenChangedSetSessionCost_total
  | |- total (whenChangedSetTotalEnergy _ _ _) =>
      eapply whenChangedSetTotalEnergy_total; eassumption
  | |- total (getCapabilityValue _) => apply total_getCapabilityValue
  end.

Ltac reached_leaf :=
  first [ apply status_reached | apply value_reached | apply cost_reached ].

(** Walk down to the step that is about the capability, then check that
    the rest leaves it alone. *)
Ltac reach :=
  repeat match goal with
    | |- reaches _ _ (bind (property _) _) =>
        eapply reaches_property; [eassumption |]
    | |- reaches _ _ (bind _ _) =>
        first
          [ apply reaches_here;
            [ solve [reached_leaf]
            | intro; solve [repeat satisfies_step_with keeps_leaf] ]
          | apply reaches_later; [solve [total_leaf] | intro] ]
    | |- reaches _ _ _ => solve [reached_leaf]
    end.

Section first_poll.

Context (getStatus : Z -> string) (api : WallboxAPI) (s : stats).

Lemma reconcile_reaches_status :
  reaches Cap.status
    (fun held => strict_eq held (Some (getStatus (status_id s))) = true)
    (reconcile getStatus api s).
Proof. unfold reconcile. reach. Qed.

Context (c : config) (Hc : config_data s = Some c).

Lemma reconcile_reaches_locked :
  reaches Cap.locked (fun held => strict_eq (Some (Boolean (locked c))) held = true)
    (reconcile getStatus api s).
Proof. unfold reconcile, whenChangedSetCapabilities. reach. Qed.

Lemma reconcile_reaches_onoff :
  reaches Cap.onoff
    (fun held =>
       strict_eq (Some (negb (String.eqb (getStatus (status_id s)) "Paused"))) held
       = true)
    (reconcile getStatus api s).
Proof. unfold reconcile, whenChangedSetCapabilities. reach. Qed.

Lemma reconcile_reaches_maximum_available_current :
  reaches Cap.maximum_available_current
    (fun held => strict_eq (Some (max_available_current c)) held = true)
    (reconcile getStatus api s).
Proof. unfold reconcile, whenChangedSetCapabilities. reach. Qed.

Lemma reconcile_reaches_measure_power :
  reaches Cap.measure_power
    (fun held => strict_eq (Some (charging_power s * 1000)) held = true)
    (reconcile getStatus api s).
Proof. unfold reconcile, whenChangedSetCapabilities. reach. Qed.

Context (l : list session) (L : getSessionsList api = Ok {| data := Some l |}).

Lemma reconcile_reaches_meter_session_cost :
  reaches Cap.meter_session_cost (is_cost (added_energy s) (energy_price c))
    (reconcile getStatus api s).
Proof. unfold reconcile, whenChangedSetCapabilities. reach. Qed.

Lemma reconcile_reaches_meter_power_session :
  reaches Cap.meter_power_session
    (fun held => strict_eq (Some (added_energy s)) held = true)
    (reconcile getStatus api s).
Proof. unfold reconcile, whenChangedSetCapabilities. reach. Qed.

Lemma reconcile_reaches_measure_energy_cost :
  reaches Cap.measure_energy_cost
    (fun held => strict_eq (Some (energy_price c)) held = true)
    (reconcile getStatus api s).
Proof. unfold reconcile, whenChangedSetCapabilities. reach. Qed.

Lemma reconcile_reaches_measure_maximum_charging_current :
  reaches Cap.measure_maximum_charging_current
    (fun held => strict_eq (Some (max_charging_current c)) held = true)
    (reconcile getStatus api s).
Proof. unfold reconcile, whenChangedSetCapabilities. reach. Qed.

Context (u : Z) (Hu : user_id s = Some u).

Lemma reconcile_reaches_user_id :
  reaches Cap.user_id (fun held => strict_eq (Some (toString u)) held = true)
    (reconcile getStatus api s).
Proof. unfold reconcile, whenChangedSetCapabilities. reach. Qed.

Lemma reconcile_reaches_user_name :
  reaches Cap.user_name (fun held => strict_eq (user_name s) held = true)
    (reconcile getStatus api s).
Proof. unfold reconcile, whenChangedSetCapabilities. reach. Qed.

End first_poll.

(** *** What the second poll finds *)

#[export] Instance Transition_quiet : Transition quiet.
Proof.
  split.
  - intro d. repeat split.
  - intros d d1 d2 l1 l2 (W1 & E1 & C1) (W2 & E2 & C2).
    unfold quiet. rewrite writes_app, events_app, W1, W2, E1, E2.
    repeat split. congruence.
Qed.

Section quiet_on.

Context (c : capabilities).










End quiet_on.

Lemma reconcile_in_sync (getStatus : Z -> string) (api : WallboxAPI) (s : stats)
    (d : device) :
  in_sync getStatus api s (caps (after (reconcile getStatus api s d))).
Proof.
  split; [apply reconcile_reaches_status|].
  intros cfg Hc. repeat apply conj.
  - apply (reconcile_reaches_locked _ _ _ _ Hc).
  - apply (reconcile_reaches_onoff _ _ _ _ Hc).
  - apply (reconcile_reaches_maximum_available_current _ _ _ _ Hc).
  - apply (reconcile_reaches_measure_power _ _ _ _ Hc).
  - intros l L. repeat apply conj.
    + apply (reconcile_reaches_meter_session_cost _ _ _ _ Hc _ L).
    + apply (reconcile_reaches_meter_power_session _ _ _ _ Hc _ L).
    + apply (reconcile_reaches_measure_energy_cost _ _ _ _ Hc _ L).
    + apply (reconcile_reaches_measure_maximum_charging_current _ _ _ _ Hc _ L).
    + intros u Hu. split.
      * apply (reconcile_reaches_user_id _ _ _ _ Hc _ L _ Hu).
      * apply (reconcile_reaches_user_name _ _ _ _ Hc _ L _ Hu).
Qed.


#[export] Instance Transition_keeps_id : Transition keeps_id.
Proof.
  split.
  - intro d. reflexivity.
  - intros d d1 d2 l1 l2 H1 H2. unfold keeps_id in *. congruence.
Qed.



(** On a new device the first poll writes every capability; the second
    only asks the API again and re-asserts availability. *)
Example second_poll_on_new_device :
  let first := poll example_getStatus api_while_charging (new_device "A") in
  writes (effects first)
  = ["status"; "locked"; "onoff"; "maximum_available_current"; "measure_power";
     "meter_power"; "meter_session_cost"; "meter_power_session";
     "measure_energy_cost"; "measure_maximum_charging_current"; "user_id";
     "user_name"]
  /\ events (effects first) = ["status_changed"; "charging_started"]
  /\ effects (poll example_getStatus api_while_charging (after first))
     = [GetChargerStatus "A"; SetAvailable; GetSessionsList].
Proof. vm_compute. repeat split. Qed.


(** * Further properties of the device class *)

(** ** Availability and status after a poll *)

#[export] Instance Transition_keeps_available : Transition keeps_available.
Proof.
  split.
  - intro d. reflexivity.
  - intros d d1 d2 l1 l2 H1 H2. unfold keeps_available in *. congruence.
Qed.

#[export] Instance Transition_no_events : Transition no_events.
Proof.
  split.
  - intro d. reflexivity.
  - intros d d1 d2 l1 l2 H1 H2. unfold no_events in *.
    rewrite events_app, H1, H2. reflexivity.
Qed.

Lemma capabilities_keep_available (getStatus : Z -> string) (api : WallboxAPI)
    (s : stats) :
  satisfies keeps_available
    (whenChangedSetAndTriggerStatus getStatus s ;;
     whenChangedSetCapabilities getStatus api s).
Proof.
  unfold whenChangedSetAndTriggerStatus, whenChangedSetCapabilities,
    triggerStatusChange, whenChangedSetTotalEnergy, whenChangedSetSessionCost,
    retrieveEnergyHistoricalTotal, whenChangedSetCapabilityValue.
  repeat satisfies_step; intro d; reflexivity.
Qed.

Lemma capabilities_no_events (getStatus : Z -> string) (api : WallboxAPI) (s : stats) :
  satisfies no_events (whenChangedSetCapabilities getStatus api s).
Proof.
  unfold whenChangedSetCapabilities, whenChangedSetTotalEnergy,
    whenChangedSetSessionCost, retrieveEnergyHistoricalTotal,
    whenChangedSetCapabilityValue.
  repeat satisfies_step; intro d; reflexivity.
Qed.

(** X1.  After a poll cycle the availability flag is false when the fetch
    failed, and otherwise tells whether the fetched status is neither
    Disconnected nor Error.  It does not depend on the flag before the
    cycle, nor on whether the reconciliation that follows throws. *)
Theorem availability_follows_status
    (getStatus : Z -> string) (api : WallboxAPI) (d : device) :
  available (after (poll getStatus api d))
  = match getChargerStatus api (_id d) with
    | Ok s =>
        negb (String.eqb (getStatus (status_id s)) "Disconnected"
              || String.eqb (getStatus (status_id s)) "Error")
    | Throw _ => false
    end.
Proof.
  destruct (getChargerStatus api (_id d)) as [s|e] eqn:F.
  - rewrite (poll_fetched _ _ _ _ F). cbn [after]. unfold reconcile.
    rewrite (after_bind_ok _ _ d tt)
      by (apply total_unit, checkDeviceAvailability_total).
    rewrite (capabilities_keep_available getStatus api s).
    rewrite checkDeviceAvailability_run. reflexivity.
  - rewrite (poll_failed _ _ _ _ F). reflexivity.
Qed.

(** X2.  After a poll cycle whose fetch succeeded, [status] holds the
    name of the fetched status code, also when the reconciliation of the
    other capabilities throws. *)
Theorem status_held_after_poll
    (getStatus : Z -> string) (api : WallboxAPI) (d : device) (s : stats) :
  getChargerStatus api (_id d) = Ok s ->
  lookup Cap.status (caps (after (poll getStatus api d)))
  = Some (getStatus (status_id s)).
Proof.
  intro F. rewrite (poll_fetched _ _ _ _ F). cbn [after].
  pose proof (reconcile_reaches_status getStatus api s d) as R. cbv beta in R.
  destruct (lookup Cap.status (caps (after (reconcile getStatus api s d))))
    as [held|]; [|discriminate].
  cbn in R. apply String.eqb_eq in R. congruence.
Qed.

Lemma status_held_after_poll_witness :
  lookup Cap.status
    (caps (after (poll example_getStatus
                    (example_api (stats_without_config 1) None) (new_device "A"))))
  = Some "Ready".
Proof.
  exact (status_held_after_poll example_getStatus
           (example_api (stats_without_config 1) None) (new_device "A")
           (stats_without_config 1) eq_refl).
Defined.

Lemma triggerStatusChange_same_cards (oldStatus : option string)
    (newStatus : string) (d d' : device) :
  effects (triggerStatusChange oldStatus newStatus d)
  = effects (triggerStatusChange oldStatus newStatus d').
Proof.
  unfold triggerStatusChange, bind, driver_trigger, perform, ret.
  cbn [result after effects].
  repeat (case_if; cbn [result after effects]); reflexivity.
Qed.

#[export] Instance Transition_never_writes (c : string) : Transition (never_writes c).
Proof.
  split.
  - intros d [].
  - intros d d1 d2 l1 l2 H1 H2 I. rewrite writes_app in I.
    apply in_app_or in I. destruct I; [apply H1 | apply H2]; assumption.
Qed.

Lemma never_writes_differ {K V} `{JsType V} `{Capability K V} (c : string) (k : K)
    (v : option V) :
  name k <> c -> satisfies (never_writes c) (whenChangedSetCapabilityValue k v).
Proof.
  intros N d W. apply whenChangedSetCapabilityValue_writes in W. congruence.
Qed.

Lemma never_writes_total (c : string) (api : WallboxAPI) (current : Q)
    (previous : option Q) :
  c <> "meter_power" ->
  satisfies (never_writes c) (whenChangedSetTotalEnergy api current previous).
Proof.
  intros N d.
  destruct (whenChangedSetTotalEnergy_cases api current previous d) as [[e X]|[l L]].
  - rewrite X. intros [].
  - rewrite (whenChangedSetTotalEnergy_listed _ _ _ _ _ L). cbv zeta.
    destruct (strict_neq _ _); cbn; [intros [E|[]]; congruence | intros []].
Qed.

Lemma never_writes_cost (c : string) (current : Q) (previous : option Q) (price : Q) :
  c <> "meter_session_cost" ->
  satisfies (never_writes c) (whenChangedSetSessionCost current previous price).
Proof.
  intros N d. rewrite whenChangedSetSessionCost_run. cbv zeta.
  destruct (strict_neq _ _); cbn; [intros [E|[]]; congruence | intros []].
Qed.

Ltac never_writes_leaf :=
  idtac;
  match goal with
  | |- satisfies _ (whenChangedSetCapabilityValue _ _) =>
      apply never_writes_differ; discriminate
  | |- satisfies _ (whenChangedSetTotalEnergy _ _ _) =>
      apply never_writes_total; discriminate
  | |- satisfies _ (whenChangedSetSessionCost _ _ _) =>
      apply never_writes_cost; discriminate
  end.

Lemma capabilities_never_write_status (getStatus : Z -> string) (api : WallboxAPI)
    (s : stats) :
  satisfies (never_writes "status") (whenChangedSetCapabilities getStatus api s).
Proof.
  unfold whenChangedSetCapabilities.
  repeat satisfies_step_with never_writes_leaf.
Qed.

(** The effects of the reconciliation, step by step. *)
Lemma reconcile_effects (getStatus : Z -> string) (api : WallboxAPI) (s : stats)
    (d : device) :
  let b := negb (String.eqb (getStatus (status_id s)) "Disconnected"
                 || String.eqb (getStatus (status_id s)) "Error") in
  let r := whenChangedSetAndTriggerStatus getStatus s (with_available b d) in
  effects (reconcile getStatus api s d)
  = ((if b then SetAvailable else SetUnavailable)
     :: effects r
     ++ effects (whenChangedSetCapabilities getStatus api s (after r)))%list.
Proof.
  cbv zeta. unfold reconcile.
  rewrite (effects_bind_ok _ _ d tt)
    by (apply total_unit, checkDeviceAvailability_total).
  rewrite checkDeviceAvailability_run. cbv zeta. cbn [after effects app].
  rewrite (effects_bind_ok _ _ _ tt)
    by (apply total_unit, whenChangedSetAndTriggerStatus_total).
  reflexivity.
Qed.

(** X3.  A poll cycle whose fetch succeeded triggers flow cards only for
    a status change: when the fetched status is the one held no card is
    triggered and [status] is not written; when it differs, the cards are
    exactly those of [triggerStatusChange] for the held and the fetched
    status, and [status] is the first capability written. *)
Theorem cards_only_on_status_change
    (getStatus : Z -> string) (api : WallboxAPI) (d : device) (s : stats) :
  getChargerStatus api (_id d) = Ok s ->
  let r := poll getStatus api d in
  let held := lookup Cap.status (caps d) in
  let fetched := getStatus (status_id s) in
  if strict_eq held (Some fetched)
  then events (effects r) = [] /\ ~ In "status" (writes (effects r))
  else events (effects r) = events (effects (triggerStatusChange held fetched d))
       /\ exists rest, writes (effects r) = "status" :: rest.
Proof.
  intro F. cbv zeta. rewrite (poll_fetched _ _ _ _ F). cbn [effects events writes].
  rewrite reconcile_effects. cbv zeta.
  set (d1 := with_available _ d).
  assert (C : forall d', ~ In "status"
                (writes (effects (whenChangedSetCapabilities getStatus api s d')))).
  { intro d'. apply (capabilities_never_write_status getStatus api s d'). }
  assert (E : forall d', events (effects (whenChangedSetCapabilities getStatus api s d'))
                         = []).
  { intro d'. apply (capabilities_no_events getStatus api s d'). }
  destruct (triggerStatusChange_only_triggers (lookup Cap.status (caps d))
              (getStatus (status_id s)) d1) as (_ & _ & W).
  cbv zeta in W.
  rewrite whenChangedSetAndTriggerStatus_run. cbv zeta.
  change (caps d1) with (caps d). unfold strict_neq.
  destruct (strict_eq (lookup Cap.status (caps d)) (Some (getStatus (status_id s))));
    cbn [negb after effects app].
  - split.
    + destruct (negb _); cbn [events]; apply E.
    + destruct (negb _); cbn [writes]; apply C.
  - split.
    + rewrite (triggerStatusChange_same_cards _ _ d d1).
      destruct (negb _); cbn [events]; rewrite events_app, E, app_nil_r; reflexivity.
    + destruct (negb _); cbn [writes]; rewrite writes_app, W; eexists; reflexivity.
Qed.

Lemma cards_only_on_status_change_witness :
  let d := after (poll example_getStatus api_while_charging (new_device "A")) in
  events (effects (poll example_getStatus api_after_session d))
  = ["status_changed"; "charging_ended"; "car_unplugged"]
  /\ events (effects (poll example_getStatus api_while_charging d)) = [].
Proof.
  cbv zeta. split.
  - pose proof (cards_only_on_status_change example_getStatus api_after_session
                  (after (poll example_getStatus api_while_charging (new_device "A")))
                  (example_stats 1 0) eq_refl) as H.
    cbv zeta in H.
    match type of H with
    | (if ?b then _ else _) =>
        replace b with false in H by (vm_compute; reflexivity)
    end.
    destruct H as [H _]. rewrite H. reflexivity.
  - pose proof (cards_only_on_status_change example_getStatus api_while_charging
                  (after (poll example_getStatus api_while_charging (new_device "A")))
                  (example_stats 2 4) eq_refl) as H.
    cbv zeta in H.
    match type of H with
    | (if ?b then _ else _) =>
        replace b with true in H by (vm_compute; reflexivity)
    end.
    exact (proj1 H).
Defined.

(** ** The requests of a poll cycle *)

Lemma session_requests_app (l1 l2 : list effect) :
  session_requests (l1 ++ l2) = (session_requests l1 + session_requests l2)%nat.
Proof.
  induction l1 as [|e l1 IH]; [reflexivity|].
  destruct e; cbn; rewrite ?IH; reflexivity.
Qed.

#[export] Instance Transition_no_session_request : Transition no_session_request.
Proof.
  split.
  - intro d. reflexivity.
  - intros d d1 d2 l1 l2 H1 H2. unfold no_session_request in *.
    rewrite session_requests_app, H1, H2. reflexivity.
Qed.

Lemma requests_bind {A B} (a b : nat) (m : Action A) (k : A -> Action B) :
  total m -> requests a m -> (forall x, requests b (k x)) ->
  requests (a + b) (bind m k).
Proof.
  intros T Hm Hk d. destruct (T d) as [x E].
  rewrite (effects_bind_ok m k d x E), session_requests_app, Hm, Hk. reflexivity.
Qed.

Lemma requests_then_none {A B} (a : nat) (m : Action A) (k : A -> Action B) :
  requests a m -> (forall x, satisfies no_session_request (k x)) ->
  requests a (bind m k).
Proof.
  intros Hm Hk d. unfold bind. destruct (result (m d)) eqn:E; cbn [effects].
  - rewrite session_requests_app, Hm, (Hk a0 (after (m d))). apply Nat.add_0_r.
  - apply Hm.
Qed.

Lemma requests_property {A B} (n : nat) (o : option A) (a : A) (k : A -> Action B) :
  o = Some a -> requests n (k a) -> requests n (bind (property o) k).
Proof. intros -> Hk d. apply Hk. Qed.

Lemma requests_total_energy (api : WallboxAPI) (current : Q) (previous : option Q) :
  requests 1 (whenChangedSetTotalEnergy api current previous).
Proof.
  intro d.
  destruct (whenChangedSetTotalEnergy_cases api current previous d) as [[e X]|[l L]].
  - rewrite X. reflexivity.
  - rewrite (whenChangedSetTotalEnergy_listed _ _ _ _ _ L). cbv zeta.
    destruct (strict_neq _ _); reflexivity.
Qed.

Lemma requests_none_differ {K V} `{JsType V} `{Capability K V} (k : K) (v : option V) :
  requests 0 (whenChangedSetCapabilityValue k v).
Proof.
  intro d. rewrite whenChangedSetCapabilityValue_run.
  destruct (strict_neq _ _); reflexivity.
Qed.

Lemma requests_none_cost (current : Q) (previous : option Q) (price : Q) :
  requests 0 (whenChangedSetSessionCost current previous price).
Proof.
  intro d. rewrite whenChangedSetSessionCost_run. cbv zeta.
  destruct (strict_neq _ _); reflexivity.
Qed.

Lemma requests_none_status (getStatus : Z -> string) (s : stats) :
  requests 0 (whenChangedSetAndTriggerStatus getStatus s).
Proof.
  unfold whenChangedSetAndTriggerStatus, triggerStatusChange, driver_trigger.
  assert (X : satisfies no_session_request
                (oldStatus <- getCapabilityValue Cap.status ;;
                 (if strict_neq oldStatus (Some (getChargerStatusName getStatus s))
                  then
                    setCapabilityValue Cap.status
                      (Some (getChargerStatusName getStatus s)) ;;
                    triggerStatusChange oldStatus (getChargerStatusName getStatus s)
                  else ret tt))).
  { unfold triggerStatusChange, driver_trigger.
    repeat satisfies_step; intro d; reflexivity. }
  exact X.
Qed.

Ltac no_session_request_leaf :=
  idtac;
  match goal with
  | |- satisfies _ (whenChangedSetCapabilityValue ?k ?v) =>
      exact (requests_none_differ k v)
  | |- satisfies _ (whenChangedSetSessionCost ?c ?p ?q) =>
      exact (requests_none_cost c p q)
  end.

Ltac requests_walk :=
  repeat match goal with
    | |- requests _ (bind (property _) _) =>
        eapply requests_property; [eassumption |]
    | |- requests _ (bind (whenChangedSetTotalEnergy _ _ _) _) =>
        apply requests_then_none;
        [ apply requests_total_energy
        | intro; solve [repeat satisfies_step_with no_session_request_leaf] ]
    | |- requests _ (bind (checkDeviceAvailability ?g ?s) _) =>
        apply (requests_bind 0 1);
        [ apply checkDeviceAvailability_total
        | intro; rewrite checkDeviceAvailability_run; cbv zeta; cbn [effects];
          destruct (negb _); reflexivity
        | intro ]
    | |- requests _ (bind (whenChangedSetAndTriggerStatus _ _) _) =>
        apply (requests_bind 0 1);
        [ apply whenChangedSetAndTriggerStatus_total
        | apply requests_none_status
        | intro ]
    | |- requests _ (bind (whenChangedSetCapabilityValue _ _) _) =>
        apply (requests_bind 0 1);
        [ apply whenChangedSetCapabilityValue_total
        | apply requests_none_differ
        | intro ]
    | |- requests _ (bind (getCapabilityValue _) _) =>
        apply (requests_bind 0 1);
        [ apply total_getCapabilityValue | intro; reflexivity | intro ]
    end.

Lemma reconcile_requests (getStatus : Z -> string) (api : WallboxAPI) (s : stats)
    (c : config) :
  config_data s = Some c -> requests 1 (reconcile getStatus api s).
Proof.
  intro Hc. unfold reconcile, whenChangedSetCapabilities. requests_walk.
Qed.

(** X4.  Every poll cycle requests the charger status exactly once, as
    its first effect.  It requests the session list exactly once when the
    fetch succeeded and the snapshot has its config block (whether or not
    the list then turns out to be usable), and not at all otherwise. *)
Theorem requests_of_a_poll
    (getStatus : Z -> string) (api : WallboxAPI) (d : device) :
  let r := poll getStatus api d in
  cycles (effects r) = 1%nat
  /\ hd_error (effects r) = Some (GetChargerStatus (_id d))
  /\ session_requests (effects r)
     = match getChargerStatus api (_id d) with
       | Ok s => match config_data s with Some _ => 1%nat | None => 0%nat end
       | Throw _ => 0%nat
       end.
Proof.
  cbv zeta. split; [apply (poll_one_cycle getStatus api d)|].
  destruct (getChargerStatus api (_id d)) as [s|e] eqn:F.
  - rewrite (poll_fetched _ _ _ _ F). cbn [effects hd_error session_requests].
    split; [reflexivity|].
    destruct (config_data s) as [c|] eqn:Hc.
    + apply (reconcile_requests getStatus api s c Hc).
    + rewrite reconcile_effects. cbv zeta.
      assert (X : forall d', whenChangedSetCapabilities getStatus api s d'
                             = Run (Throw TypeError) d' []).
      { intro d'. unfold whenChangedSetCapabilities. rewrite Hc. reflexivity. }
      rewrite X. cbn [effects]. rewrite app_nil_r.
      pose proof (requests_none_status getStatus s) as R. unfold requests in R.
      destruct (negb _); cbn [session_requests]; apply R.
  - rewrite (poll_failed _ _ _ _ F). repeat split.
Qed.

(** ** Running a method step by step *)

Lemma wp_bind_unit {B} (m : Action unit) (k : unit -> Action B) (d : device)
    (Q : outcome B -> device -> list effect -> Prop) :
  total m ->
  wp (k tt) (after (m d)) (fun o d' l => Q o d' (effects (m d) ++ l)%list) ->
  wp (bind m k) d Q.
Proof.
  intros T H. unfold wp in *. rewrite (bind_ok m k d tt (total_unit m d T)).
  exact H.
Qed.

Lemma wp_bind_throw {A B} (m : Action A) (k : A -> Action B) (d : device) (e : error)
    (Q : outcome B -> device -> list effect -> Prop) :
  result (m d) = Throw e ->
  Q (Throw e) (after (m d)) (effects (m d)) ->
  wp (bind m k) d Q.
Proof. intros E H. unfold wp. rewrite (bind_throw m k d e E). exact H. Qed.

Lemma wp_read {K V B} `{Capability K V} (key : K) (k : option V -> Action B)
    (d : device) (Q : outcome B -> device -> list effect -> Prop) :
  wp (k (lookup key (caps d))) d Q -> wp (bind (getCapabilityValue key) k) d Q.
Proof.
  unfold wp, bind, getCapabilityValue. cbn [result after effects app].
  destruct (k (lookup key (caps d)) d). exact (fun H => H).
Qed.

Lemma wp_property {A B} (o : option A) (a : A) (k : A -> Action B) (d : device)
    (Q : outcome B -> device -> list effect -> Prop) :
  o = Some a -> wp (k a) d Q -> wp (bind (property o) k) d Q.
Proof.
  intros ->. unfold wp, bind, property, ret. cbn [result after effects app].
  destruct (k a d). exact (fun H => H).
Qed.

Lemma wp_property_missing {A B} (o : option A) (k : A -> Action B) (d : device)
    (Q : outcome B -> device -> list effect -> Prop) :
  o = None -> Q (Throw TypeError) d [] -> wp (bind (property o) k) d Q.
Proof. intros ->. exact (fun H => H). Qed.

Lemma wp_last (m : Action unit) (d : device)
    (Q : outcome unit -> device -> list effect -> Prop) :
  total m -> Q (Ok tt) (after (m d)) (effects (m d)) -> wp m d Q.
Proof. intros T H. unfold wp. rewrite (total_unit m d T). exact H. Qed.

(** ** The order of all writes *)

Lemma writes_in_order_bind {A B} (a1 a2 : list string) (m : Action A)
    (k : A -> Action B) :
  writes_in_order a1 m -> (forall x, writes_in_order a2 (k x)) ->
  writes_in_order (a1 ++ a2) (bind m k).
Proof.
  intros Hm Hk d. unfold bind. destruct (result (m d)) eqn:E; cbn [effects].
  - rewrite writes_app. apply is_subsequence_app; [apply Hm | apply Hk].
  - rewrite <- (app_nil_r (writes _)).
    apply is_subsequence_app; [apply Hm | apply is_subsequence_nil].
Qed.

Lemma writes_in_order_differ {K V} `{JsType V} `{Capability K V} (k : K)
    (v : option V) :
  writes_in_order [name k] (whenChangedSetCapabilityValue k v).
Proof.
  intro d. rewrite whenChangedSetCapabilityValue_run.
  destruct (strict_neq _ _); cbn [effects writes is_subsequence].
  - rewrite String.eqb_refl. reflexivity.
  - reflexivity.
Qed.

Lemma writes_in_order_status (getStatus : Z -> string) (s : stats) :
  writes_in_order ["status"] (whenChangedSetAndTriggerStatus getStatus s).
Proof.
  intro d. rewrite whenChangedSetAndTriggerStatus_run. cbv zeta.
  destruct (triggerStatusChange_only_triggers
              (lookup Cap.status (caps d)) (getStatus (status_id s)) d)
    as (_ & _ & W).
  cbv zeta in W.
  destruct (strict_neq _ _); cbn [effects writes]; rewrite ?W; reflexivity.
Qed.

Lemma writes_in_order_total (api : WallboxAPI) (current : Q) (previous : option Q) :
  writes_in_order ["meter_power"] (whenChangedSetTotalEnergy api current previous).
Proof.
  intro d.
  destruct (whenChangedSetTotalEnergy_cases api current previous d) as [[e X]|[l L]].
  - rewrite X. reflexivity.
  - rewrite (whenChangedSetTotalEnergy_listed _ _ _ _ _ L). cbv zeta.
    destruct (strict_neq _ _); reflexivity.
Qed.

Lemma writes_in_order_cost (current : Q) (previous : option Q) (price : Q) :
  writes_in_order ["meter_session_cost"]
    (whenChangedSetSessionCost current previous price).
Proof.
  intro d. rewrite whenChangedSetSessionCost_run. cbv zeta.
  destruct (strict_neq _ _); reflexivity.
Qed.

Lemma writes_in_order_quiet {A} (m : Action A) :
  (forall d, writes (effects (m d)) = []) -> writes_in_order [] m.
Proof. intros H d. rewrite H. reflexivity. Qed.

Ltac order_leaf :=
  idtac;
  match goal with
  | |- writes_in_order _ (whenChangedSetCapabilityValue ?k ?v) =>
      exact (writes_in_order_differ k v)
  | |- writes_in_order _ (whenChangedSetAndTriggerStatus _ _) =>
      apply writes_in_order_status
  | |- writes_in_order _ (whenChangedSetTotalEnergy _ _ _) =>
      apply writes_in_order_total
  | |- writes_in_order _ (whenChangedSetSessionCost _ _ _) =>
      apply writes_in_order_cost
  | |- writes_in_order _ (checkDeviceAvailability _ _) =>
      apply writes_in_order_quiet; intro;
      rewrite checkDeviceAvailability_run; cbv zeta; cbn [effects];
      destruct (negb _); reflexivity
  | |- writes_in_order _ (property ?o) =>
      apply writes_in_order_quiet; intro; destruct o; reflexivity
  | |- writes_in_order _ _ => apply writes_in_order_quiet; intro; reflexivity
  end.

Ltac order_step :=
  match goal with
  | |- writes_in_order (?x :: ?rest) (bind (whenChangedSetCapabilityValue _ _) _) =>
      apply (writes_in_order_bind [x] rest); [order_leaf | intro]
  | |- writes_in_order (?x :: ?rest) (bind (whenChangedSetAndTriggerStatus _ _) _) =>
      apply (writes_in_order_bind [x] rest); [order_leaf | intro]
  | |- writes_in_order (?x :: ?rest) (bind (whenChangedSetTotalEnergy _ _ _) _) =>
      apply (writes_in_order_bind [x] rest); [order_leaf | intro]
  | |- writes_in_order (?x :: ?rest) (bind (whenChangedSetSessionCost _ _ _) _) =>
      apply (writes_in_order_bind [x] rest); [order_leaf | intro]
  | |- writes_in_order ?a (bind _ _) =>
      apply (writes_in_order_bind [] a); [order_leaf | intro]
  | |- writes_in_order _ _ => order_leaf
  end.

Ltac order_walk := repeat order_step.

Lemma reconcile_writes_in_order (getStatus : Z -> string) (api : WallboxAPI)
    (s : stats) :
  writes_in_order reconciled (reconcile getStatus api s).
Proof.
  unfold reconciled, reconcile, whenChangedSetCapabilities. order_walk.
Qed.

Lemma is_subsequence_In (m l : list string) (x : string) :
  is_subsequence l m = true -> In x l -> In x m.
Proof.
  revert l. induction m as [|y m IH]; intros [|z l] H I; try destruct I;
    try discriminate; cbn [is_subsequence] in H;
    destruct (String.eqb z y) eqn:E.
  - apply String.eqb_eq in E. subst. now left.
  - right. apply (IH (z :: l) H). now left.
  - right. apply (IH l H). assumption.
  - right. apply (IH (z :: l) H). now right.
Qed.

Lemma is_subsequence_NoDup (m l : list string) :
  is_subsequence l m = true -> NoDup m -> NoDup l.
Proof.
  revert l. induction m as [|y m IH]; intros [|z l] H N; try constructor;
    try discriminate.
  - cbn in H. inversion N as [|? ? Ny Nm]; subst.
    destruct (String.eqb z y) eqn:E.
    + apply String.eqb_eq in E. subst. intro I. apply Ny.
      exact (is_subsequence_In _ _ _ H I).
    + pose proof (IH _ H Nm) as X. now inversion X.
  - cbn in H. inversion N as [|? ? Ny Nm]; subst.
    destruct (String.eqb z y) eqn:E.
    + exact (IH _ H Nm).
    + pose proof (IH _ H Nm) as X. now inversion X.
Qed.

(** X5.  In every poll cycle the capabilities are written in one fixed
    order: status, locked, onoff, maximum_available_current,
    measure_power, meter_power, meter_session_cost, meter_power_session,
    measure_energy_cost, measure_maximum_charging_current, user_id,
    user_name; each is written at most once, and no other capability is
    written. *)
Theorem writes_follow_one_order
    (getStatus : Z -> string) (api : WallboxAPI) (d : device) :
  let w := writes (effects (poll getStatus api d)) in
  is_subsequence w reconciled = true
  /\ NoDup w
  /\ forall c, In c w -> In c reconciled.
Proof.
  cbv zeta.
  assert (S : is_subsequence (writes (effects (poll getStatus api d))) reconciled
              = true).
  { destruct (getChargerStatus api (_id d)) as [s|e] eqn:F.
    - rewrite (poll_fetched _ _ _ _ F). cbn [effects writes].
      apply (reconcile_writes_in_order getStatus api s d).
    - rewrite (poll_failed _ _ _ _ F). reflexivity. }
  split; [exact S|]. split.
  - apply (is_subsequence_NoDup reconciled _ S).
    unfold reconciled.
    repeat (constructor; [cbn; intuition discriminate|]). constructor.
  - intros c. apply (is_subsequence_In _ _ _ S).
Qed.

(** ** When the lifetime energy is written *)

Lemma never_writes_availability (c : string) (getStatus : Z -> string) (s : stats) :
  satisfies (never_writes c) (checkDeviceAvailability getStatus s).
Proof.
  intro d. rewrite checkDeviceAvailability_run. cbv zeta. cbn [effects].
  destruct (negb _); intros [].
Qed.

Lemma never_writes_status (c : string) (getStatus : Z -> string) (s : stats) :
  c <> "status" ->
  satisfies (never_writes c) (whenChangedSetAndTriggerStatus getStatus s).
Proof.
  intros N d. rewrite whenChangedSetAndTriggerStatus_run. cbv zeta.
  destruct (triggerStatusChange_only_triggers
              (lookup Cap.status (caps d)) (getStatus (status_id s)) d)
    as (_ & _ & W).
  cbv zeta in W. unfold never_writes.
  destruct (strict_neq _ _); cbn [effects writes]; rewrite ?W;
    [intros [E|[]]; congruence | intros []].
Qed.

Lemma keeps_id_step (m : Action unit) :
  (forall d, _id (after (m d)) = _id d) -> satisfies keeps_id m.
Proof. exact (fun H => H). Qed.

Lemma differ_keeps_id {K V} `{JsType V} `{Capability K V} (k : K) (v : option V) :
  satisfies keeps_id (whenChangedSetCapabilityValue k v).
Proof.
  intro d. unfold keeps_id. rewrite whenChangedSetCapabilityValue_run.
  destruct (strict_neq _ _); reflexivity.
Qed.

Lemma availability_keeps_id (getStatus : Z -> string) (s : stats) :
  satisfies keeps_id (checkDeviceAvailability getStatus s).
Proof. intro d. unfold keeps_id. rewrite checkDeviceAvailability_run. reflexivity. Qed.

Lemma status_keeps_id (getStatus : Z -> string) (s : stats) :
  satisfies keeps_id (whenChangedSetAndTriggerStatus getStatus s).
Proof.
  intro d. unfold keeps_id. rewrite whenChangedSetAndTriggerStatus_run. cbv zeta.
  destruct (strict_neq _ _); reflexivity.
Qed.

Lemma cost_keeps_id (current : Q) (previous : option Q) (price : Q) :
  satisfies keeps_id (whenChangedSetSessionCost current previous price).
Proof.
  intro d. unfold keeps_id. rewrite whenChangedSetSessionCost_run. cbv zeta.
  destruct (strict_neq _ _); reflexivity.
Qed.

(** The facts about one step [m] run from [d] that the proofs below keep:
    what it leaves alone and what it does not write. *)
Ltac keep_id m d :=
  try (let H := fresh "I" in
       assert (H : satisfies keeps_id m)
         by (first [ apply differ_keeps_id | apply availability_keeps_id
                   | apply status_keeps_id | apply cost_keeps_id ]);
       specialize (H d); unfold keeps_id in H).

Ltac keep_lookup k m d :=
  try (let H := fresh "K" in
       assert (H : satisfies (keeps k) m) by (solve [keeps_leaf]);
       specialize (H d); unfold keeps in H).

Ltac keep_unwritten c m d :=
  try (let H := fresh "W" in
       assert (H : satisfies (never_writes c) m)
         by (first [ solve [never_writes_leaf]
                   | apply never_writes_availability
                   | apply never_writes_status; discriminate ]);
       specialize (H d); unfold never_writes in H).

(** One step of a run: the step is taken, [track] records what is to be
    kept about it, and the device and effects it leaves are named. *)
Ltac wp_step track :=
  match goal with
  | |- wp (bind (getCapabilityValue _) _) _ _ => apply wp_read
  | |- wp (bind (property _) _) _ _ =>
      first [ eapply wp_property; [first [eassumption | reflexivity] |]
            | eapply wp_property_missing; [first [eassumption | reflexivity] |] ]
  | |- wp (bind ?m _) ?d _ =>
      apply wp_bind_unit; [solve [total_leaf] |];
      track m d;
      let d' := fresh "d" in
      let l' := fresh "l" in
      set (d' := after (m d)) in *; set (l' := effects (m d)) in *;
      clearbody d' l'
  | |- wp ?m ?d _ =>
      apply wp_last; [solve [total_leaf] |];
      track m d;
      let d' := fresh "d" in
      let l' := fresh "l" in
      set (d' := after (m d)) in *; set (l' := effects (m d)) in *;
      clearbody d' l'
  end.

Ltac track_lifetime m d :=
  keep_id m d;
  keep_lookup Cap.meter_power_session m d;
  keep_lookup Cap.meter_power m d;
  keep_unwritten "meter_power" m d.

Ltac until_total_energy track :=
  repeat match goal with
    | |- wp (bind (whenChangedSetTotalEnergy _ _ _) _) _ _ => fail 1
    | |- _ => wp_step track
    end.

Lemma reconcile_lifetime (getStatus : Z -> string) (api : WallboxAPI) (s : stats)
    (c : config) (l : list session) (d : device) :
  config_data s = Some c ->
  getSessionsList api = Ok {| data := Some l |} ->
  let previous := ToNumber (lookup Cap.meter_power_session (caps d)) in
  let total := fold_left (addSessionEnergy (_id d)) l 0 in
  let differs := strict_neq (added_energy s + total) (previous + total) in
  wp (reconcile getStatus api s) d
    (fun _ d' w =>
       (In "meter_power" (writes w) <-> differs = true)
       /\ (differs = true ->
           lookup Cap.meter_power (caps d') = Some (total + added_energy s))
       /\ (differs = false ->
           lookup Cap.meter_power (caps d') = lookup Cap.meter_power (caps d))).
Proof.
  intros Hc L. cbv zeta. unfold reconcile, whenChangedSetCapabilities.
  until_total_energy track_lifetime.
  match goal with
  | |- wp (bind (whenChangedSetTotalEnergy _ _ _) _) ?x _ =>
      assert (E1 : lookup Cap.meter_power_session (caps x)
                   = lookup Cap.meter_power_session (caps d)) by congruence;
      assert (E2 : _id x = _id d) by congruence;
      assert (E3 : lookup Cap.meter_power (caps x) = lookup Cap.meter_power (caps d))
        by congruence;
      rewrite <- E3; clear E3
  end.
  apply wp_bind_unit; [solve [total_leaf] |].
  rewrite (whenChangedSetTotalEnergy_listed _ _ _ _ _ L). cbv zeta.
  rewrite E1, E2.
  destruct (strict_neq
              (added_energy s + fold_left (addSessionEnergy (_id d)) l 0)
              (ToNumber (lookup Cap.meter_power_session (caps d))
               + fold_left (addSessionEnergy (_id d)) l 0)) eqn:N;
    cbn [after effects].
  - match goal with
    | |- wp _ (with_caps (store _ ?v _) ?x) _ =>
        let d' := fresh "d" in
        set (d' := with_caps _ x);
        assert (M : lookup Cap.meter_power (caps d') = v) by reflexivity;
        clearbody d'
    end.
    destruct (user_id s) eqn:Hu; repeat wp_step track_lifetime;
      (split; [split; [intros _; reflexivity|]
              | split; [intros _; congruence | discriminate]]);
      intros _; rewrite !writes_app; cbn [writes app];
      rewrite !in_app_iff; cbn [In]; tauto.
  - destruct (user_id s) eqn:Hu; repeat wp_step track_lifetime;
      (split; [split; [|discriminate] | split; [discriminate | intros _; congruence]]);
      rewrite !writes_app; cbn [writes app];
      rewrite !in_app_iff; cbn [In]; rewrite ?in_app_iff; tauto.
Qed.

(** X6.  In a poll cycle that fetches a snapshot with its config and a
    usable session list, [meter_power] is written exactly when the guard
    of [whenChangedSetTotalEnergy] holds of the session energy held when
    the cycle starts: when the snapshot's session energy plus the
    historical total differs from the held session energy ([null] counting
    as 0) plus that total.  Then [meter_power] holds the total plus the
    session energy after the cycle; otherwise it keeps its value.  The
    guard fails when the session energy is the one held; so a new device
    whose charger reports no energy gets no lifetime energy, whatever the
    history. *)
Theorem lifetime_written_when_energy_changes
    (getStatus : Z -> string) (api : WallboxAPI) (d : device) (s : stats)
    (c : config) (l : list session) :
  getChargerStatus api (_id d) = Ok s ->
  config_data s = Some c ->
  getSessionsList api = Ok {| data := Some l |} ->
  let r := poll getStatus api d in
  let previous := ToNumber (lookup Cap.meter_power_session (caps d)) in
  let total := fold_left (addSessionEnergy (_id d)) l 0 in
  let differs := strict_neq (added_energy s + total) (previous + total) in
  (In "meter_power" (writes (effects r)) <-> differs = true)
  /\ (differs = true ->
      lookup Cap.meter_power (caps (after r)) = Some (total + added_energy s))
  /\ (differs = false ->
      lookup Cap.meter_power (caps (after r)) = lookup Cap.meter_power (caps d))
  /\ (added_energy s == previous -> differs = false).
Proof.
  intros F Hc L. cbv zeta. rewrite (poll_fetched _ _ _ _ F).
  cbn [after effects writes].
  destruct (reconcile_lifetime getStatus api s c l d Hc L) as (W & Y & N).
  split; [exact W|]. split; [exact Y|]. split; [exact N|].
  intro E. unfold strict_neq. apply negb_false_iff.
  change (Qeq_bool
            (added_energy s + fold_left (addSessionEnergy (_id d)) l 0)
            (ToNumber (lookup Cap.meter_power_session (caps d))
             + fold_left (addSessionEnergy (_id d)) l 0) = true).
  apply Qeq_bool_iff. rewrite E. reflexivity.
Qed.

Lemma lifetime_written_when_energy_changes_witness :
  let api := example_api (example_stats 1 0) (Some example_sessions) in
  let r := poll example_getStatus api (new_device "A") in
  ~ In "meter_power" (writes (effects r))
  /\ lookup Cap.meter_power (caps (after r)) = None.
Proof.
  cbv zeta.
  destruct (lifetime_written_when_energy_changes example_getStatus
              (example_api (example_stats 1 0) (Some example_sessions))
              (new_device "A") (example_stats 1 0) example_config example_sessions
              eq_refl eq_refl eq_refl) as (W & _ & K & G).
  cbv zeta in W, K, G.
  assert (E : added_energy (example_stats 1 0)
              == ToNumber (lookup Cap.meter_power_session (caps (new_device "A"))))
    by reflexivity.
  specialize (G E). split.
  - intro I. apply W in I. rewrite G in I. discriminate.
  - rewrite (K G). reflexivity.
Defined.

(** ** The session cost *)

Lemma session_cost_step (current : Q) (previous : option Q) (price : Q) (d : device) :
  strict_eq
    (lookup Cap.meter_session_cost
       (caps (after (whenChangedSetSessionCost current previous price d))))
    (Some (sessionCost current previous
             (lookup Cap.meter_session_cost (caps d)) price))
  = true.
Proof.
  rewrite whenChangedSetSessionCost_run. cbv zeta.
  destruct (strict_neq _ _) eqn:E; cbn [after caps with_caps].
  - cbn. apply Qeq_bool_refl.
  - now apply strict_neq_false.
Qed.

Ltac track_session m d :=
  keep_lookup Cap.meter_power_session m d;
  keep_lookup Cap.meter_session_cost m d;
  lazymatch m with
  | whenChangedSetSessionCost ?c ?o ?p =>
      pose proof (session_cost_step c o p d)
  | whenChangedSetCapabilityValue Cap.meter_power_session ?v =>
      pose proof (whenChangedSetCapabilityValue_synced Cap.meter_power_session v d)
  | _ => idtac
  end.

(** X8.  With a price, a session energy and a held cost that are not
    negative, the session cost is not negative; and while the session
    continues (the energy is not zero and not below the energy held) the
    session cost does not go down. *)
Theorem session_cost_bounds
    (current price : Q) (previous previousCost : option Q) :
  0 <= price -> 0 <= current -> 0 <= ToNumber previousCost ->
  0 <= sessionCost current previous previousCost price
  /\ (ToNumber previous <= current -> ~ current == 0 ->
      ToNumber previousCost <= sessionCost current previous previousCost price).
Proof.
  intros Hp Hc Ho. unfold sessionCost.
  destruct (Qltb current (ToNumber previous)) eqn:L; cbn [orb].
  - split; [apply Qmult_le_0_compat; assumption|].
    intros G _. apply Qltb_lt in L. exfalso. exact (Qlt_not_le _ _ L G).
  - assert (G : ToNumber previous <= current).
    { apply Qnot_lt_le. intro X. apply Qltb_lt in X. congruence. }
    assert (D : 0 <= (current - ToNumber previous) * price).
    { apply Qmult_le_0_compat; [|exact Hp].
      unfold Qminus. rewrite <- (Qplus_opp_r (ToNumber previous)).
      apply Qplus_le_l. exact G. }
    destruct (Qeq_bool current 0) eqn:Z.
    + split; [apply Qmult_le_0_compat; assumption|].
      intros _ N. exfalso. apply N. now apply Qeq_bool_iff.
    + split.
      * rewrite <- (Qplus_0_r 0). apply Qplus_le_compat; assumption.
      * intros _ _. rewrite <- (Qplus_0_r (ToNumber previousCost)) at 1.
        apply Qplus_le_r. exact D.
Qed.

Lemma session_cost_bounds_witness :
  0 <= sessionCost 6 (Some 4) (Some 1) (1 # 4)
  /\ 1 <= sessionCost 6 (Some 4) (Some 1) (1 # 4).
Proof.
  destruct (session_cost_bounds 6 (1 # 4) (Some 4) (Some 1)) as [N M];
    try (cbn; discriminate).
  split; [exact N|]. apply M; cbn; discriminate.
Defined.

(** ** A poll cycle that stops half way *)

Lemma whenChangedSetTotalEnergy_fails (api : WallboxAPI) (e : error) (current : Q)
    (previous : option Q) (d : device) :
  session_list_error api = Some e ->
  whenChangedSetTotalEnergy api current previous d
  = Run (Throw e) d [GetSessionsList].
Proof.
  unfold session_list_error. intro E.
  unfold whenChangedSetTotalEnergy, retrieveEnergyHistoricalTotal, bind, await,
    property, throw.
  cbn [result after effects].
  destruct (getSessionsList api) as [[[l|]]|e']; cbn [data] in E;
    try discriminate E; injection E as <-; reflexivity.
Qed.

Lemma writes_in_order_stops {B} (api : WallboxAPI) (e : error) (current : Q)
    (previous : option Q) (k : unit -> Action B) :
  session_list_error api = Some e ->
  writes_in_order [] (bind (whenChangedSetTotalEnergy api current previous) k).
Proof.
  intros E d.
  rewrite (bind_throw _ k d e)
    by (rewrite (whenChangedSetTotalEnergy_fails _ _ _ _ _ E); reflexivity).
  rewrite (whenChangedSetTotalEnergy_fails _ _ _ _ _ E). reflexivity.
Qed.

Ltac track_rest m d :=
  keep_lookup Cap.meter_power m d;
  keep_lookup Cap.meter_session_cost m d;
  keep_lookup Cap.meter_power_session m d;
  keep_lookup Cap.measure_energy_cost m d;
  keep_lookup Cap.measure_maximum_charging_current m d;
  keep_lookup Cap.user_id m d;
  keep_lookup Cap.user_name m d.

Lemma reconcile_stops_at_lifetime (getStatus : Z -> string) (api : WallboxAPI)
    (s : stats) (c : config) (e : error) (d : device) :
  config_data s = Some c ->
  session_list_error api = Some e ->
  wp (reconcile getStatus api s) d
    (fun o d' _ =>
       o = Throw e
       /\ (forall k : Cap.number,
             k <> Cap.maximum_available_current -> k <> Cap.measure_power ->
             lookup k (caps d') = lookup k (caps d))
       /\ (forall k : Cap.text,
             k <> Cap.status -> lookup k (caps d') = lookup k (caps d))).
Proof.
  intros Hc E. unfold reconcile, whenChangedSetCapabilities.
  until_total_energy track_rest.
  eapply wp_bind_throw;
    rewrite (whenChangedSetTotalEnergy_fails _ _ _ _ _ E); [reflexivity|].
  cbn [after]. split; [reflexivity|].
  split; intros []; intros; congruence.
Qed.

Lemma reconcile_writes_before_lifetime (getStatus : Z -> string) (api : WallboxAPI)
    (s : stats) (e : error) :
  session_list_error api = Some e ->
  writes_in_order before_lifetime (reconcile getStatus api s).
Proof.
  intro E. unfold before_lifetime, reconcile, whenChangedSetCapabilities.
  repeat first [exact (writes_in_order_stops _ _ _ _ _ E) | order_step].
Qed.

(** X9.  When the snapshot is fetched with its config but the session
    list cannot be had (the request is rejected, or the answer has no
    [data]), the poll cycle ends in that error half way: status, locked,
    onoff, maximum_available_current and measure_power are reconciled
    with the snapshot, nothing else is written, and every other
    capability keeps the value it had. *)
Theorem session_list_failure_stops_reconciliation
    (getStatus : Z -> string) (api : WallboxAPI) (d : device) (s : stats)
    (c : config) (e : error) :
  getChargerStatus api (_id d) = Ok s ->
  config_data s = Some c ->
  session_list_error api = Some e ->
  let r := poll getStatus api d in
  let held := caps (after r) in
  result r = Throw e
  /\ is_subsequence (writes (effects r)) before_lifetime = true
  /\ (strict_eq (lookup Cap.status held) (Some (getStatus (status_id s))) = true
      /\ strict_eq (Some (Boolean (locked c))) (lookup Cap.locked held) = true
      /\ strict_eq (Some (negb (String.eqb (getStatus (status_id s)) "Paused")))
           (lookup Cap.onoff held) = true
      /\ strict_eq (Some (max_available_current c))
           (lookup Cap.maximum_available_current held) = true
      /\ strict_eq (Some (charging_power s * 1000)) (lookup Cap.measure_power held)
         = true)
  /\ (forall k : Cap.number,
        k <> Cap.maximum_available_current -> k <> Cap.measure_power ->
        lookup k held = lookup k (caps d))
  /\ (forall k : Cap.text, k <> Cap.status -> lookup k held = lookup k (caps d)).
Proof.
  intros F Hc E. cbv zeta. rewrite (poll_fetched _ _ _ _ F).
  cbn [result after effects writes].
  destruct (reconcile_stops_at_lifetime getStatus api s c e d Hc E) as (R & N & T).
  destruct (reconcile_in_sync getStatus api s d) as (S0 & S).
  destruct (S c Hc) as (S1 & S2 & S3 & S4 & _).
  repeat apply conj; try assumption.
  apply (reconcile_writes_before_lifetime getStatus api s e E d).
Qed.

Lemma session_list_failure_stops_reconciliation_witness :
  let r := poll example_getStatus (example_api (example_stats 2 6) None)
             (new_device "A") in
  result r = Throw TypeError
  /\ lookup Cap.meter_power_session (caps (after r)) = None
  /\ lookup Cap.user_name (caps (after r)) = None.
Proof.
  cbv zeta.
  destruct (session_list_failure_stops_reconciliation example_getStatus
              (example_api (example_stats 2 6) None) (new_device "A")
              (example_stats 2 6) example_config TypeError
              eq_refl eq_refl eq_refl) as (R & _ & _ & N & T).
  cbv zeta in R, N, T. split; [exact R|]. split.
  - rewrite N; [reflexivity | discriminate | discriminate].
  - rewrite T; [reflexivity | discriminate].
Defined.

(** *** A snapshot without a user id *)

Ltac track_user m d :=
  keep_lookup Cap.user_id m d;
  keep_lookup Cap.user_name m d.

Lemma reconcile_stops_at_user (getStatus : Z -> string) (api : WallboxAPI)
    (s : stats) (c : config) (l : list session) (d : device) :
  config_data s = Some c ->
  getSessionsList api = Ok {| data := Some l |} ->
  user_id s = None ->
  wp (reconcile getStatus api s) d
    (fun o d' _ =>
       o = Throw TypeError
       /\ lookup Cap.user_id (caps d') = lookup Cap.user_id (caps d)
       /\ lookup Cap.user_name (caps d') = lookup Cap.user_name (caps d)).
Proof.
  intros Hc L Hu. unfold reconcile, whenChangedSetCapabilities.
  repeat wp_step track_user.
  split; [reflexivity|]. split; congruence.
Qed.

Lemma reconcile_writes_before_user (getStatus : Z -> string) (api : WallboxAPI)
    (s : stats) :
  user_id s = None ->
  writes_in_order before_user (reconcile getStatus api s).
Proof.
  intro Hu. unfold before_user, reconcile, whenChangedSetCapabilities.
  rewrite Hu.
  repeat match goal with
    | |- writes_in_order [] (bind (property None) _) =>
        apply writes_in_order_quiet; intro; reflexivity
    | |- _ => order_step
    end.
Qed.

Lemma reconcile_cost (getStatus : Z -> string) (api : WallboxAPI) (s : stats)
    (c : config) (l : list session) (d : device) :
  config_data s = Some c ->
  getSessionsList api = Ok {| data := Some l |} ->
  wp (reconcile getStatus api s) d
    (fun _ d' _ =>
       strict_eq (lookup Cap.meter_session_cost (caps d'))
         (Some (sessionCost (added_energy s)
                  (lookup Cap.meter_power_session (caps d))
                  (lookup Cap.meter_session_cost (caps d)) (energy_price c)))
       = true).
Proof.
  intros Hc L. unfold reconcile, whenChangedSetCapabilities.
  destruct (user_id s) eqn:Hu; repeat wp_step track_session;
    match goal with
    | H : strict_eq (lookup Cap.meter_session_cost (caps ?dc))
            (Some (sessionCost _ ?o ?oc _)) = true
      |- strict_eq (lookup _ (caps ?x)) _ = true =>
        replace (lookup Cap.meter_session_cost (caps x))
          with (lookup Cap.meter_session_cost (caps dc)) by congruence;
        replace (lookup Cap.meter_power_session (caps d)) with o by congruence;
        replace (lookup Cap.meter_session_cost (caps d)) with oc by congruence;
        exact H
    end.
Qed.

(** X10.  When the snapshot has its config and the session list is there
    but the snapshot has no user id, the poll cycle ends in a TypeError
    after the ten capabilities that come before the user had their turn.
    The eight that mirror the snapshot (status, locked, onoff,
    maximum_available_current, measure_power, meter_power_session,
    measure_energy_cost, measure_maximum_charging_current) hold its
    values; [meter_session_cost] holds the cost computed from the session
    energy and cost held when the cycle started; [meter_power] holds the
    historical total plus the session energy if the guard of
    [whenChangedSetTotalEnergy] held, and its old value otherwise;
    [user_id] and [user_name] are not written and keep their values. *)
Theorem missing_user_stops_reconciliation
    (getStatus : Z -> string) (api : WallboxAPI) (d : device) (s : stats)
    (c : config) (l : list session) :
  getChargerStatus api (_id d) = Ok s ->
  config_data s = Some c ->
  getSessionsList api = Ok {| data := Some l |} ->
  user_id s = None ->
  let r := poll getStatus api d in
  let held := caps (after r) in
  let previous := lookup Cap.meter_power_session (caps d) in
  let total := fold_left (addSessionEnergy (_id d)) l 0 in
  result r = Throw TypeError
  /\ is_subsequence (writes (effects r)) before_user = true
  /\ (strict_eq (lookup Cap.status held) (Some (getStatus (status_id s))) = true
      /\ strict_eq (Some (Boolean (locked c))) (lookup Cap.locked held) = true
      /\ strict_eq (Some (negb (String.eqb (getStatus (status_id s)) "Paused")))
           (lookup Cap.onoff held) = true
      /\ strict_eq (Some (max_available_current c))
           (lookup Cap.maximum_available_current held) = true
      /\ strict_eq (Some (charging_power s * 1000)) (lookup Cap.measure_power held)
         = true
      /\ strict_eq (Some (added_energy s)) (lookup Cap.meter_power_session held)
         = true
      /\ strict_eq (Some (energy_price c)) (lookup Cap.measure_energy_cost held)
         = true
      /\ strict_eq (Some (max_charging_current c))
           (lookup Cap.measure_maximum_charging_current held) = true)
  /\ strict_eq (lookup Cap.meter_session_cost held)
       (Some (sessionCost (added_energy s) previous
                (lookup Cap.meter_session_cost (caps d)) (energy_price c)))
     = true
  /\ lookup Cap.meter_power held
     = (if strict_neq (added_energy s + total) (ToNumber previous + total)
        then Some (total + added_energy s)
        else lookup Cap.meter_power (caps d))
  /\ lookup Cap.user_id held = lookup Cap.user_id (caps d)
  /\ lookup Cap.user_name held = lookup Cap.user_name (caps d).
Proof.
  intros F Hc L Hu. cbv zeta. rewrite (poll_fetched _ _ _ _ F).
  cbn [result after effects writes].
  destruct (reconcile_stops_at_user getStatus api s c l d Hc L Hu) as (R & I & N).
  destruct (reconcile_lifetime getStatus api s c l d Hc L) as (_ & Y & K).
  cbv zeta in Y, K.
  split; [exact R|]. split.
  { apply (reconcile_writes_before_user getStatus api s Hu d). }
  split.
  { repeat apply conj.
    - apply reconcile_reaches_status.
    - apply (reconcile_reaches_locked _ _ _ _ Hc).
    - apply (reconcile_reaches_onoff _ _ _ _ Hc).
    - apply (reconcile_reaches_maximum_available_current _ _ _ _ Hc).
    - apply (reconcile_reaches_measure_power _ _ _ _ Hc).
    - apply (reconcile_reaches_meter_power_session _ _ _ _ Hc _ L).
    - apply (reconcile_reaches_measure_energy_cost _ _ _ _ Hc _ L).
    - apply (reconcile_reaches_measure_maximum_charging_current _ _ _ _ Hc _ L). }
  split; [exact (reconcile_cost getStatus api s c l d Hc L)|].
  split; [|split; assumption].
  destruct (strict_neq _ _); [apply Y | apply K]; reflexivity.
Qed.

Lemma missing_user_stops_reconciliation_witness :
  let s := {| status_id := 2; config_data := Some example_config;
              charging_power := 7; added_energy := 6; user_id := None;
              user_name := Some "Ann" |} in
  let r := poll example_getStatus (example_api s (Some example_sessions))
             (new_device "A") in
  result r = Throw TypeError
  /\ lookup Cap.meter_power (caps (after r)) = Some (5 + 6)
  /\ lookup Cap.user_name (caps (after r)) = None.
Proof.
  cbv zeta.
  match goal with
  | |- result (poll _ (example_api ?s _) _) = _ /\ _ =>
      destruct (missing_user_stops_reconciliation example_getStatus
                  (example_api s (Some example_sessions)) (new_device "A")
                  s example_config example_sessions
                  eq_refl eq_refl eq_refl eq_refl)
        as (R & _ & _ & _ & P & _ & N)
  end.
  cbv zeta in R, P, N. split; [exact R|]. split.
  - rewrite P. reflexivity.
  - rewrite N. reflexivity.
Defined.

(** ** How a poll cycle ends *)

Ltac track_nothing m d := idtac.

Lemma reconcile_without_config (getStatus : Z -> string) (api : WallboxAPI)
    (s : stats) (d : device) :
  config_data s = None ->
  result (reconcile getStatus api s d) = Throw TypeError.
Proof.
  intro Hc.
  change (wp (reconcile getStatus api s) d (fun o _ _ => o = Throw TypeError)).
  unfold reconcile, whenChangedSetCapabilities. repeat wp_step track_nothing.
  reflexivity.
Qed.

Lemma reconcile_completes (getStatus : Z -> string) (api : WallboxAPI)
    (s : stats) (c : config) (l : list session) (u : Z) (d : device) :
  config_data s = Some c ->
  getSessionsList api = Ok {| data := Some l |} ->
  user_id s = Some u ->
  result (reconcile getStatus api s d) = Ok tt.
Proof.
  intros Hc L Hu.
  change (wp (reconcile getStatus api s) d (fun o _ _ => o = Ok tt)).
  unfold reconcile, whenChangedSetCapabilities. repeat wp_step track_nothing.
  reflexivity.
Qed.

Lemma session_list_there (api : WallboxAPI) :
  session_list_error api = None ->
  exists l, getSessionsList api = Ok {| data := Some l |}.
Proof.
  unfold session_list_error.
  destruct (getSessionsList api) as [[[l|]]|e]; cbn [data]; try discriminate.
  intros _. exists l. reflexivity.
Qed.

Lemma poll_result (getStatus : Z -> string) (api : WallboxAPI) (d : device) :
  result (poll getStatus api d) = cycle_outcome api (_id d).
Proof.
  unfold cycle_outcome.
  destruct (getChargerStatus api (_id d)) as [s|e] eqn:F.
  - rewrite (poll_fetched _ _ _ _ F). cbn [result].
    destruct (config_data s) as [c|] eqn:Hc;
      [|exact (reconcile_without_config _ _ _ _ Hc)].
    destruct (session_list_error api) as [e|] eqn:E.
    + exact (proj1 (reconcile_stops_at_lifetime getStatus api s c e d Hc E)).
    + destruct (session_list_there api E) as [l L].
      destruct (user_id s) as [u|] eqn:Hu.
      * exact (reconcile_completes _ _ _ _ _ _ _ Hc L Hu).
      * exact (proj1 (reconcile_stops_at_user getStatus api s c l d Hc L Hu)).
  - rewrite (poll_failed _ _ _ _ F). reflexivity.
Qed.

Lemma setup_keeps_id (getStatus : Z -> string) (api : WallboxAPI) (d : device) :
  let seconds :=
    if unset (setting_polling d) then POLL_INTERVAL
    else ToNumber (setting_polling d) in
  _id (with_polling (Some (timers_created d))
         (with_new_interval (1000 * seconds)
            (if unset (setting_polling d)
             then with_setting_polling (Some POLL_INTERVAL) d else d)))
  = _id d.
Proof. cbv zeta. destruct (unset _); reflexivity. Qed.

(** X11.  A poll cycle ends well or in an error according to the answers
    of the API alone: a failed fetch is caught and the cycle ends well; a
    snapshot without config ends it in a TypeError, a session list that
    cannot be had in the error of the request (a TypeError when [data] is
    missing), a snapshot without user id in a TypeError; otherwise it ends
    well.  The first poll of [setupDevicePollingAndDoFirstPoll] ends the
    set-up the same way, and however it ends the timer started before it
    is running; a timer whose period elapses ends that way too, if it is
    still running. *)
Theorem poll_outcome_by_cases
    (getStatus : Z -> string) (api : WallboxAPI) (d : device) :
  let start := setupDevicePollingAndDoFirstPoll getStatus api d in
  result (poll getStatus api d) = cycle_outcome api (_id d)
  /\ result start = cycle_outcome api (_id d)
  /\ running (timers_created d) (after start) = true
  /\ forall h,
       result (elapsed getStatus api h d)
       = if running h d then cycle_outcome api (_id d) else Ok tt.
Proof.
  cbv zeta. split; [apply poll_result|].
  pose proof (setup_runs_poll getStatus api d) as S. cbv zeta in S.
  pose proof (setup_keeps_id getStatus api d) as I. cbv zeta in I.
  match type of S with _ = Run _ _ (_ ++ _ :: effects (poll _ _ ?x))%list =>
    destruct (poll_one_cycle getStatus api x) as (_ & T & _);
    pose proof (poll_result getStatus api x) as R
  end.
  cbv zeta in T. rewrite S. cbn [result after]. split; [|split].
  - rewrite R, I. reflexivity.
  - unfold running. rewrite T.
    destruct (unset (setting_polling d));
      cbn [intervals with_polling with_new_interval with_setting_polling
           timers_created existsb fst];
      rewrite Nat.eqb_refl; reflexivity.
  - intro h. unfold elapsed, bind, this, running. cbn [result after effects].
    destruct (existsb _ (intervals d)); [apply poll_result | reflexivity].
Qed.

(** ** The timer over the life of a device *)

Lemma onSettings_run (seconds : Q) (d : device) :
  onSettings seconds d
  = Run (Ok tt)
      (with_polling (Some (timers_created d))
         (with_new_interval (1000 * seconds)
            (with_intervals (cancel (polling d) (intervals d)) d)))
      [ClearTimeout (polling d); SetInterval (timers_created d) (1000 * seconds)].
Proof. reflexivity. Qed.

Lemma cancel_own (h : nat) (ms : Q) : cancel (Some h) [(h, ms)] = [].
Proof. cbn. rewrite Nat.eqb_refl. reflexivity. Qed.

Lemma on_event_one_timer (getStatus : Z -> string) (api : WallboxAPI)
    (e : host_event) (seconds : Q) (d : device) :
  one_timer (1000 * seconds) d ->
  one_timer (1000 * configured seconds [(api, e)])
    (after (on_event getStatus api e d)).
Proof.
  intros (h & I & P). destruct e as [s|h']; cbn [on_event configured fold_left snd].
  - rewrite onSettings_run. cbn [after]. exists (timers_created d).
    cbn [intervals polling with_polling with_new_interval with_intervals].
    rewrite P, I, cancel_own. split; reflexivity.
  - exists h. unfold elapsed, bind, this. cbn [result after effects].
    destruct (existsb _ (intervals d)); [|split; assumption].
    destruct (poll_one_cycle getStatus api d) as (_ & T & Q & _).
    cbv zeta in T, Q. rewrite T, Q. split; assumption.
Qed.

Lemma after_events_one_timer (getStatus : Z -> string)
    (l : list (WallboxAPI * host_event)) (seconds : Q) (d : device) :
  one_timer (1000 * seconds) d ->
  one_timer (1000 * configured seconds l) (after_events getStatus l d).
Proof.
  revert seconds d. induction l as [|[api e] l IH]; intros seconds d H;
    [exact H|].
  unfold after_events, configured. cbn [fold_left fst snd].
  apply (IH _ _ (on_event_one_timer getStatus api e seconds d H)).
Qed.

(** X12.  A device set up without a timer of its own has exactly one
    timer running ever after, whatever series of setting changes and
    elapsed periods follows, and holds its handle; the period of that
    timer is 1000 * the last polling setting the user chose, or 1000 * the
    setting at set-up (10 when unset) if there was no change.
    [onDeleted] then leaves no timer running. *)
Theorem one_timer_for_life
    (getStatus : Z -> string) (api : WallboxAPI)
    (l : list (WallboxAPI * host_event)) (d : device) :
  intervals d = [] ->
  let seconds :=
    if unset (setting_polling d) then POLL_INTERVAL
    else ToNumber (setting_polling d) in
  let d' :=
    after_events getStatus l
      (after (setupDevicePollingAndDoFirstPoll getStatus api d)) in
  one_timer (1000 * configured seconds l) d'
  /\ intervals (after (onDeleted d')) = [].
Proof.
  intro E. cbv zeta.
  pose proof (setup_runs_poll getStatus api d) as S. cbv zeta in S.
  match type of S with _ = Run _ _ (_ ++ _ :: effects (poll _ _ ?x))%list =>
    destruct (poll_one_cycle getStatus api x) as (_ & T & P & _)
  end.
  cbv zeta in T, P.
  assert (H : one_timer
                (1000 * (if unset (setting_polling d) then POLL_INTERVAL
                         else ToNumber (setting_polling d)))
                (after (setupDevicePollingAndDoFirstPoll getStatus api d))).
  { exists (timers_created d). rewrite S. cbn [after]. rewrite T, P.
    cbn [intervals polling with_polling with_new_interval].
    destruct (unset (setting_polling d));
      cbn [intervals timers_created with_setting_polling]; rewrite E;
      split; reflexivity. }
  pose proof (after_events_one_timer getStatus l _ _ H) as (h & I & Q).
  split; [exists h; split; assumption|].
  unfold onDeleted, bind, this, clearTimeout, perform.
  cbn [result after effects intervals with_intervals].
  rewrite Q, I. apply cancel_own.
Qed.

Lemma one_timer_for_life_witness :
  one_timer (1000 * 30)
    (after_events example_getStatus
       [(api_while_charging, PeriodElapsed 0); (failing_api, SettingsChanged 30);
        (api_after_session, PeriodElapsed 1); (api_after_session, PeriodElapsed 0)]
       (after (setupDevicePollingAndDoFirstPoll example_getStatus failing_api
                 (new_device "A")))).
Proof.
  apply (one_timer_for_life example_getStatus failing_api
           [(api_while_charging, PeriodElapsed 0); (failing_api, SettingsChanged 30);
            (api_after_session, PeriodElapsed 1); (api_after_session, PeriodElapsed 0)]
           (new_device "A")).
  reflexivity.
Defined.

(** ** Deleting the device *)

Lemma cancel_stops (h : nat) (l : list (nat * Q)) :
  existsb (fun t => Nat.eqb (fst t) h) (cancel (Some h) l) = false.
Proof.
  induction l as [|t l IH]; [reflexivity|].
  cbn [cancel filter]. destruct (Nat.eqb (fst t) h) eqn:E; cbn [negb].
  - exact IH.
  - cbn [existsb]. rewrite E. exact IH.
Qed.

Lemma cancel_spares (h h' : nat) (l : list (nat * Q)) :
  h' <> h ->
  existsb (fun t => Nat.eqb (fst t) h') (cancel (Some h) l)
  = existsb (fun t => Nat.eqb (fst t) h') l.
Proof.
  intro N. induction l as [|t l IH]; [reflexivity|].
  cbn [cancel filter existsb]. destruct (Nat.eqb (fst t) h) eqn:E; cbn [negb].
  - apply Nat.eqb_eq in E. rewrite <- E in N.
    replace (Nat.eqb (fst t) h') with false
      by (symmetry; apply Nat.eqb_neq; congruence).
    exact IH.
  - cbn [existsb]. rewrite <- IH. reflexivity.
Qed.

Lemma cancel_twice (h : option nat) (l : list (nat * Q)) :
  cancel h (cancel h l) = cancel h l.
Proof.
  destruct h as [n|]; [|reflexivity]. cbn [cancel].
  induction l as [|t l IH]; [reflexivity|].
  cbn [filter]. destruct (negb (Nat.eqb (fst t) n)) eqn:E; [|exact IH].
  cbn [filter]. rewrite E, IH. reflexivity.
Qed.

(** X13.  [onDeleted] cancels the timer whose handle the device holds and
    does nothing else: that timer no longer runs, so its period elapsing
    starts no poll cycle and has no effect at all; every other timer runs
    as before; the capabilities, the availability and the handle held are
    as they were; and deleting twice is as deleting once. *)
Theorem deleted_device_stops_polling
    (getStatus : Z -> string) (api : WallboxAPI) (d : device) (h : nat) :
  polling d = Some h ->
  let r := onDeleted d in
  result r = Ok tt
  /\ effects r = [ClearTimeout (Some h)]
  /\ running h (after r) = false
  /\ effects (elapsed getStatus api h (after r)) = []
  /\ (forall h', h' <> h -> running h' (after r) = running h' d)
  /\ caps (after r) = caps d
  /\ available (after r) = available d
  /\ polling (after r) = Some h
  /\ after (onDeleted (after r)) = after r.
Proof.
  intro P. cbv zeta.
  unfold onDeleted, bind, this, clearTimeout, perform.
  cbn [result after effects app]. rewrite P.
  assert (R : running h (with_intervals (cancel (Some h) (intervals d)) d) = false)
    by apply cancel_stops.
  repeat apply conj; try reflexivity.
  - exact R.
  - unfold elapsed, bind, this. cbn [result after effects].
    unfold running in R. rewrite R. reflexivity.
  - intros h' N. apply cancel_spares. exact N.
  - exact P.
  - unfold with_intervals.
    cbn [_id caps available setting_polling polling intervals timers_created].
    rewrite P, (cancel_twice (Some h)). reflexivity.
Qed.

Lemma deleted_device_stops_polling_witness :
  let d := after (setupDevicePollingAndDoFirstPoll example_getStatus
                    api_while_charging (new_device "A")) in
  running 0 d = true
  /\ running 0 (after (onDeleted d)) = false
  /\ effects (elapsed example_getStatus api_while_charging 0 (after (onDeleted d)))
     = [].
Proof.
  cbv zeta. split; [reflexivity|].
  destruct (deleted_device_stops_polling example_getStatus api_while_charging
              (after (setupDevicePollingAndDoFirstPoll example_getStatus
                        api_while_charging (new_device "A"))) 0 eq_refl)
    as (_ & _ & R & E & _).
  cbv zeta in R, E. split; [exact R | exact E].
Defined.

(** ** The historical total *)

(** X14.  Sessions of other chargers and sessions without an energy do
    not count in the historical total of [retrieveEnergyHistoricalTotal]:
    with them left out of the list the loop makes the same additions in
    the same order, and the method returns the same total. *)
Theorem historical_total_of_counted_sessions
    (getChargerStatus : string -> outcome stats) (l : list session) (d : device) :
  let listing := fun l => {| getChargerStatus := getChargerStatus;
                             getSessionsList := Ok {| data := Some l |} |} in
  (forall acc,
     fold_left (addSessionEnergy (_id d)) l acc
     = fold_left (addSessionEnergy (_id d)) (filter (counted (_id d)) l) acc)
  /\ retrieveEnergyHistoricalTotal (listing l) d
     = retrieveEnergyHistoricalTotal (listing (filter (counted (_id d)) l)) d.
Proof.
  cbv zeta.
  assert (H : forall acc,
             fold_left (addSessionEnergy (_id d)) l acc
             = fold_left (addSessionEnergy (_id d)) (filter (counted (_id d)) l) acc).
  { induction l as [|s l IH]; intro acc; [reflexivity|].
    cbn [filter fold_left]. unfold counted at 1, addSessionEnergy at 2.
    destruct (String.eqb (charger s) (_id d)) eqn:E, (energy s) eqn:G;
      cbn [andb fold_left]; rewrite IH; try reflexivity.
    unfold addSessionEnergy at 3. rewrite E, G. reflexivity. }
  split; [exact H|].
  match goal with
  | |- retrieveEnergyHistoricalTotal ?a _ = retrieveEnergyHistoricalTotal ?b _ =>
      rewrite (retrieveEnergyHistoricalTotal_listed a l d eq_refl),
        (retrieveEnergyHistoricalTotal_listed b (filter (counted (_id d)) l) d
           eq_refl)
  end.
  rewrite H. reflexivity.
Qed.

(** ** Capability registration *)

Lemma hasCapability_listed (c : string) (r : registered) :
  hasCapability c r = listed c (ids r).
Proof. reflexivity. Qed.

Lemma listed_app (c : string) (l m : list string) :
  listed c (l ++ m) = listed c l || listed c m.
Proof. apply existsb_app. Qed.

Lemma listed_In (c : string) (l : list string) : listed c l = true <-> In c l.
Proof.
  unfold listed. rewrite existsb_exists. split.
  - intros (x & I & E). apply String.eqb_eq in E. now subst.
  - intro I. exists c. split; [exact I | apply String.eqb_refl].
Qed.

Lemma not_listed (c : string) (l : list string) : listed c l = false <-> ~ In c l.
Proof.
  rewrite <- listed_In. destruct (listed c l); split; congruence.
Qed.

Lemma filter_absent (c : string) (l : list string) :
  listed c l = false -> filter (fun x => negb (String.eqb c x)) l = l.
Proof.
  induction l as [|x l IH]; [reflexivity|]. cbn [listed existsb filter].
  destruct (String.eqb c x); [discriminate|]. cbn [orb negb].
  intro H. f_equal. exact (IH H).
Qed.

Lemma ids_remove_if_present (c : string) (r : registered) :
  ids (remove_if_present c r) = filter (fun x => negb (String.eqb c x)) (ids r).
Proof.
  unfold remove_if_present, hasCapability. fold (listed c (ids r)).
  destruct (listed c (ids r)) eqn:E; [reflexivity|].
  symmetry. exact (filter_absent c _ E).
Qed.

Lemma calls_remove_if_present (c : string) (r : registered) :
  calls (remove_if_present c r)
  = (calls r ++ if hasCapability c r then [RemoveCapability c] else [])%list.
Proof.
  unfold remove_if_present. destruct (hasCapability c r); cbn [calls removeCapability].
  - reflexivity.
  - now rewrite app_nil_r.
Qed.

Lemma listed_filter (c : string) (keep : string -> bool) (l : list string) :
  listed c (filter keep l) = keep c && listed c l.
Proof.
  induction l as [|x l IH]; [now rewrite andb_false_r|].
  cbn [filter]. destruct (keep x) eqn:K; cbn [listed existsb]; fold (listed c l);
    fold (listed c (filter keep l)); rewrite IH.
  - destruct (String.eqb c x) eqn:E; [|reflexivity].
    apply String.eqb_eq in E. subst. rewrite K. reflexivity.
  - destruct (String.eqb c x) eqn:E; [|reflexivity].
    apply String.eqb_eq in E. subst. rewrite K. reflexivity.
Qed.

Lemma filter_filter (keep keep' : string -> bool) (l : list string) :
  filter keep (filter keep' l) = filter (fun x => keep' x && keep x) l.
Proof.
  induction l as [|x l IH]; [reflexivity|]. cbn [filter].
  destruct (keep' x); cbn [filter andb]; [destruct (keep x)|]; now rewrite IH.
Qed.

Lemma remove_all_run (l : list string) (r : registered) :
  NoDup l ->
  remove_all l r
  = {| ids := filter (fun x => negb (listed x l)) (ids r);
       calls := calls r
                ++ map RemoveCapability (filter (fun c => hasCapability c r) l) |}.
Proof.
  revert r. induction l as [|c l IH]; intros r N.
  - destruct r as [i k]. cbn [remove_all fold_left ids calls listed existsb negb map
                              filter].
    rewrite app_nil_r. f_equal. induction i as [|x i IHi]; [reflexivity|].
    cbn [filter]. now rewrite <- IHi.
  - inversion N as [|? ? Nc Nl]; subst.
    unfold remove_all in *. cbn [fold_left]. rewrite (IH _ Nl).
    rewrite ids_remove_if_present, calls_remove_if_present, filter_filter.
    f_equal.
    + apply filter_ext. intro x. cbn [listed existsb]. fold (listed x l).
      rewrite negb_orb. rewrite (String.eqb_sym x c). reflexivity.
    + rewrite <- app_assoc. f_equal. cbn [filter].
      assert (E : filter (fun c0 => hasCapability c0 (remove_if_present c r)) l
                  = filter (fun c0 => hasCapability c0 r) l).
      { apply filter_ext_in. intros x I. rewrite !hasCapability_listed.
        rewrite ids_remove_if_present, listed_filter.
        destruct (String.eqb c x) eqn:X; [|reflexivity].
        apply String.eqb_eq in X. subst. contradiction. }
      rewrite E. destruct (hasCapability c r); reflexivity.
Qed.

Lemma add_if_missing_run (c : string) (r : registered) :
  add_if_missing c r
  = {| ids := ids r ++ (if hasCapability c r then [] else [c]);
       calls := calls r ++ (if hasCapability c r then [] else [AddCapability c]) |}.
Proof.
  unfold add_if_missing. destruct r as [i k].
  destruct (hasCapability c _); cbn [negb addCapability ids calls];
    rewrite ?app_nil_r; reflexivity.
Qed.

Lemma add_all_run (l : list string) (r : registered) :
  NoDup l ->
  add_all l r
  = {| ids := ids r ++ filter (fun c => negb (hasCapability c r)) l;
       calls := calls r
                ++ map AddCapability (filter (fun c => negb (hasCapability c r)) l) |}.
Proof.
  revert r. induction l as [|c l IH]; intros r N.
  - destruct r as [i k]. cbn [add_all fold_left filter map ids calls].
    now rewrite !app_nil_r.
  - inversion N as [|? ? Nc Nl]; subst.
    unfold add_all in *. cbn [fold_left]. rewrite (IH _ Nl).
    assert (E : filter (fun c0 => negb (hasCapability c0 (add_if_missing c r))) l
                = filter (fun c0 => negb (hasCapability c0 r)) l).
    { apply filter_ext_in. intros x I. f_equal. rewrite !hasCapability_listed.
      rewrite add_if_missing_run. cbn [ids]. rewrite listed_app.
      destruct (hasCapability c r); cbn [listed existsb]; [now rewrite orb_false_r|].
      destruct (String.eqb x c) eqn:X; [|now rewrite !orb_false_r].
      apply String.eqb_eq in X. subst. contradiction. }
    rewrite E, add_if_missing_run. cbn [ids calls filter].
    rewrite <- !app_assoc.
    destruct (hasCapability c r); cbn [negb map app]; reflexivity.
Qed.

Lemma unused_NoDup : NoDup unused.
Proof.
  unfold unused. repeat (constructor; [cbn; intuition discriminate|]). constructor.
Qed.

Lemma added_NoDup : NoDup added.
Proof.
  unfold added. repeat (constructor; [cbn; intuition discriminate|]). constructor.
Qed.

Lemma registerCapabilities_run (r : registered) :
  registerCapabilities r
  = {| ids := filter (fun c => negb (listed c unused)) (ids r)
              ++ filter (fun c => negb (hasCapability c r)) added;
       calls := calls r
                ++ map RemoveCapability (filter (fun c => hasCapability c r) unused)
                ++ map AddCapability
                     (filter (fun c => negb (hasCapability c r)) added) |}.
Proof.
  change (registerCapabilities r) with (add_all added (remove_all unused r)).
  rewrite (add_all_run _ _ added_NoDup), (remove_all_run _ _ unused_NoDup).
  cbn [ids calls]. rewrite <- app_assoc.
  assert (E : filter (fun c => negb (hasCapability c
                        {| ids := filter (fun x => negb (listed x unused)) (ids r);
                           calls := calls r
                             ++ map RemoveCapability
                                  (filter (fun c => hasCapability c r) unused) |}))
                added
              = filter (fun c => negb (hasCapability c r)) added).
  { apply filter_ext_in. intros x I. f_equal. rewrite !hasCapability_listed.
    cbn [ids]. rewrite listed_filter.
    replace (listed x unused) with false; [reflexivity|].
    unfold added in I. cbn [In] in I.
    repeat (destruct I as [<-|I]; [reflexivity|]). destruct I. }
  rewrite E. reflexivity.
Qed.

(** X15.  [registerCapabilities] in one step: the capabilities the device
    had stay in their order, except measure_current, charge_amp,
    charge_amp_limit and charging, which are removed; those of
    meter_power_session, meter_session_cost, maximum_available_current,
    measure_maximum_charging_current, user_id, user_name and
    measure_energy_cost the device lacked are appended, in that order.
    The host is asked to remove only what the device had and to add only
    what it lacked, removals first. *)
Theorem registerCapabilities_in_one_step (r : registered) :
  let r' := registerCapabilities r in
  ids r'
  = (filter (fun c => negb (listed c unused)) (ids r)
     ++ filter (fun c => negb (hasCapability c r)) added)%list
  /\ calls r'
     = (calls r
        ++ map RemoveCapability (filter (fun c => hasCapability c r) unused)
        ++ map AddCapability (filter (fun c => negb (hasCapability c r)) added))%list
  /\ forall c,
       hasCapability c r'
       = listed c added || (negb (listed c unused) && hasCapability c r).
Proof.
  cbv zeta. rewrite registerCapabilities_run. cbn [ids calls].
  split; [reflexivity|]. split; [reflexivity|].
  intro c. rewrite !hasCapability_listed. cbn [ids].
  rewrite listed_app, !listed_filter, hasCapability_listed.
  destruct (listed c added) eqn:A, (listed c unused) eqn:U, (listed c (ids r));
    try reflexivity.
  exfalso. apply listed_In in A, U. unfold added in A. unfold unused in U.
  cbn [In] in A, U.
  repeat (destruct A as [<-|A]; [intuition discriminate|]). destruct A.
Qed.

Lemma registered_again (r : registered) :
  (forall c, In c unused -> hasCapability c r = false) ->
  (forall c, In c added -> hasCapability c r = true) ->
  registerCapabilities r = r.
Proof.
  intros U A. rewrite registerCapabilities_run. destruct r as [i k].
  cbn [ids calls].
  assert (E1 : filter (fun c => hasCapability c {| ids := i; calls := k |}) unused
               = []).
  { rewrite <- (filter_ext_in (fun _ => false)).
    - unfold unused. reflexivity.
    - intros c I. symmetry. exact (U c I). }
  assert (E2 : filter (fun c => negb (hasCapability c {| ids := i; calls := k |}))
                 added = []).
  { rewrite <- (filter_ext_in (fun _ => false)).
    - unfold added. reflexivity.
    - intros c I. rewrite (A c I). reflexivity. }
  rewrite E1, E2. cbn [map app]. rewrite !app_nil_r. f_equal.
  clear E1 E2 A. induction i as [|x i IH]; [reflexivity|].
  cbn [filter].
  assert (N : listed x unused = false).
  { apply not_listed. intro I. specialize (U x I).
    unfold hasCapability in U. cbn [ids existsb] in U.
    rewrite String.eqb_refl in U. discriminate. }
  rewrite N. cbn [negb]. f_equal. apply IH.
  intros c I. specialize (U c I). unfold hasCapability in *. cbn [ids existsb] in *.
  apply orb_false_elim in U. exact (proj2 U).
Qed.

(** X16.  Registering twice is registering once: after
    [registerCapabilities] a further call changes no capability and asks
    the host for nothing; and registration brings no capability in twice
    when none was there twice. *)
Theorem registerCapabilities_settles (r : registered) :
  registerCapabilities (registerCapabilities r) = registerCapabilities r
  /\ (NoDup (ids r) -> NoDup (ids (registerCapabilities r))).
Proof.
  split.
  - apply registered_again.
    + intros c I. rewrite registerCapabilities_run, hasCapability_listed.
      cbn [ids]. rewrite listed_app, !listed_filter.
      apply listed_In in I. rewrite I. cbn [negb andb orb].
      destruct (negb (hasCapability c r)); [|reflexivity]. cbn [andb].
      unfold unused in I. apply listed_In in I. cbn [In] in I.
      repeat (destruct I as [<-|I]; [reflexivity|]). destruct I.
    + intros c I. rewrite registerCapabilities_run, hasCapability_listed.
      cbn [ids]. rewrite listed_app, !listed_filter.
      assert (U : listed c unused = false).
      { unfold added in I. cbn [In] in I.
        repeat (destruct I as [<-|I]; [reflexivity|]). destruct I. }
      apply listed_In in I. rewrite I, U, hasCapability_listed.
      destruct (listed c (ids r)); reflexivity.
  - intro N. rewrite registerCapabilities_run. cbn [ids].
    apply NoDup_app.
    + now apply NoDup_filter.
    + apply NoDup_filter. exact added_NoDup.
    + intros c I J. apply filter_In in I, J.
      destruct I as (I & _), J as (_ & J).
      apply listed_In in I. rewrite hasCapability_listed, I in J. discriminate.
Qed.

Lemma registerCapabilities_settles_witness :
  NoDup (ids (registerCapabilities
                {| ids := ["onoff"; "charging"; "status"; "user_id"];
                   calls := [] |})).
Proof.
  apply (proj2 (registerCapabilities_settles
                  {| ids := ["onoff"; "charging"; "status"; "user_id"];
                     calls := [] |})).
  cbn [ids]. repeat (constructor; [cbn; intuition discriminate|]). constructor.
Defined.
